(** * gossip: a static site generator (package gossip, gossip.go)

    A shallow embedding of the site generation pipeline: format dispatch,
    post discovery, the post pass of [Site.Generate] and the tree copy.

    Go values are modelled as follows.
    - [string] is a byte string, as in Go; [[]byte] is [list byte].
    - [error] is an inductive type of the error values the package can see;
      a nil error is [None].
    - a call that may panic returns a [go A]: [Return a] or [Panic v].
    - the operating system is a record of oracles ([World]) answering the
      calls of the post pass, a source tree ([node]) carrying the answers
      that the tree copy gets for each entry, and an event log
      ([list fs_event]) of what is done under the destination tree. *)

From Stdlib Require Import ZArith Ascii String List Lia Bool DecimalString.
From Stdlib Require DecimalPos DecimalZ.
From stdpp Require Import base gmap strings list.

Local Open Scope Z_scope.

(** ** Go strings (package strings) *)

(** [strings.HasPrefix(s, prefix)] *)
Fixpoint HasPrefix (s prefix : string) : bool :=
  match prefix, s with
  | EmptyString, _ => true
  | String c p', String d s' => if decide (c = d) then HasPrefix s' p' else false
  | String _ _, EmptyString => false
  end.

(** [strings.Contains(s, substr)] *)
Fixpoint Contains (s substr : string) : bool :=
  HasPrefix s substr ||
  match s with
  | EmptyString => false
  | String _ s' => Contains s' substr
  end.

(** [strings.LastIndex(s, substr)]: the byte index of the last occurrence
    of [substr] in [s], or [-1]. *)
Fixpoint LastIndex (s substr : string) : Z :=
  let here := if HasPrefix s substr then 0 else -1 in
  match s with
  | EmptyString => here
  | String _ s' =>
      let r := LastIndex s' substr in
      if 0 <=? r then r + 1 else here
  end.

(** [len(s)] *)
Definition len (s : string) : Z := Z.of_nat (String.length s).

Fixpoint str_take (n : nat) (s : string) : string :=
  match n, s with
  | S n', String c s' => String c (str_take n' s')
  | _, _ => EmptyString
  end.

Fixpoint str_drop (n : nat) (s : string) : string :=
  match n, s with
  | S n', String _ s' => str_drop n' s'
  | _, _ => s
  end.

(** [strings.Join(elems, sep)] *)
Fixpoint strings_Join (elems : list string) (sep : string) : string :=
  match elems with
  | [] => EmptyString
  | [e] => e
  | e :: rest => e +:+ sep +:+ strings_Join rest sep
  end.

(** [strings.Split(s, "/")]: the segments of [s] between separators. *)
Fixpoint segments (s : string) : list string :=
  match s with
  | EmptyString => [EmptyString]
  | String c s' =>
      if decide (c = "/"%char) then EmptyString :: segments s'
      else match segments s' with
           | seg :: rest => String c seg :: rest
           | [] => [String c EmptyString]
           end
  end.

(** ** Outcomes of Go calls *)

Inductive Errno := ENOENT | EACCES | ENOTDIR | EEXIST | EIO.

Inductive error :=
| errorString (s : string)                    (* errors.New(s) *)
| PathError (op path : string) (e : Errno)    (* *os.PathError *)
| SkipDir                                     (* filepath.SkipDir *)
| TemplateError (msg : string).               (* errors of text/template *)

Inductive panic_value :=
| RuntimeError (msg : string)                 (* runtime.Error *)
| PanicError (e : error).                     (* panic(err) *)

Inductive go (A : Type) :=
| Return (a : A)
| Panic (v : panic_value).
Arguments Return {A} a.
Arguments Panic {A} v.

#[global] Instance go_ret : MRet go := @Return.

#[global] Instance go_bind : MBind go := fun A B k m =>
  match m with
  | Return a => k a
  | Panic v => Panic v
  end.

#[global] Instance Errno_eq_dec : EqDecision Errno.
Proof. solve_decision. Defined.
#[global] Instance error_eq_dec : EqDecision error.
Proof. solve_decision. Defined.

(** [errors.New] *)
Definition errors_New (s : string) : error := errorString s.

(** [os.IsNotExist] *)
Definition IsNotExist (err : option error) : bool :=
  match err with
  | Some (PathError _ _ ENOENT) => true
  | _ => false
  end.

Definition slice_bounds : panic_value :=
  RuntimeError "slice bounds out of range".

(** The slice expression [s[:hi]]. *)
Definition slice_to (s : string) (hi : Z) : go string :=
  if (0 <=? hi) && (hi <=? len s)
  then Return (str_take (Z.to_nat hi) s)
  else Panic slice_bounds.

(** The slice expression [s[lo:]]. *)
Definition slice_from (s : string) (lo : Z) : go string :=
  if (0 <=? lo) && (lo <=? len s)
  then Return (str_drop (Z.to_nat lo) s)
  else Panic slice_bounds.

(** ** Format *)

Inductive Format := MARKDOWN | HTML.

#[global] Instance Format_eq_dec : EqDecision Format.
Proof. solve_decision. Defined.

Definition formats : gmap string Format :=
  <["txt" := MARKDOWN]> (<["md" := MARKDOWN]> (<["html" := HTML]> ∅)).

(** ** Time (package time) and formatting (package fmt) *)

Inductive time_Month :=
| January | February | March | April | May | June
| July | August | September | October | November | December.

(** [time.Month] is an integer type: January = 1, ..., December = 12. *)
Definition Month_int (m : time_Month) : Z :=
  match m with
  | January => 1 | February => 2 | March => 3 | April => 4
  | May => 5 | June => 6 | July => 7 | August => 8
  | September => 9 | October => 10 | November => 11 | December => 12
  end.

(** A [time.Time], through the calendar fields the package reads. *)
Record time_Time := { Year : Z; Month : time_Month; Day : Z }.

(** [fmt.Sprintf("%d", v)] *)
Definition Sprintf_d (v : Z) : string :=
  NilZero.string_of_int (Z.to_int v).

Fixpoint zeros (n : nat) : string :=
  match n with
  | O => EmptyString
  | S n' => String "0" (zeros n')
  end.

(** [fmt.Sprintf("%0<wid>d", v)]: the digits are padded with zeros up to the
    width, in which a minus sign counts. *)
Definition Sprintf_0d (wid : nat) (v : Z) : string :=
  let digits := NilZero.string_of_uint (N.to_uint (Z.abs_N v)) in
  let prec := if v <? 0 then (wid - 1)%nat else wid in
  let padded := zeros (prec - String.length digits) +:+ digits in
  if v <? 0 then String "-" padded else padded.

(** ** Paths (package path/filepath), with separator [/] *)

(** [filepath.Join(elem...)]: the non-empty elements joined by the
    separator. Go then normalises the result lexically ([Clean]); that step
    is left out, the path denotes the same file. *)
Definition filepath_Join (elem : list string) : string :=
  strings_Join (filter (fun e => e <> EmptyString) elem) "/".

(** [filepath.Rel(basepath, targpath)], for the target paths the walk builds
    from [basepath] itself: the base gives ".", a path below the base gives
    the part after the base and its separator. *)
Definition filepath_Rel (basepath targpath : string) : string + error :=
  if decide (targpath = basepath) then inl "."%string
  else if HasPrefix targpath (basepath +:+ "/")
       then inl (str_drop (String.length basepath + 1) targpath)
       else inr (errors_New ("Rel: can't make " +:+ targpath +:+
                             " relative to " +:+ basepath)).

(** ** The operating system and the external collaborators *)

(** [os.FileInfo] *)
Record FileInfo := {
  Name : string;
  IsDir : bool;
  Mode : Z;
  ModTime : time_Time
}.

(** A parsed [*template.Template]: [Execute] gives the bytes it wrote to the
    writer and its error. *)
Record Template := {
  Execute : string -> list Byte.byte * option error
}.

(** The calls of the post pass that only read, answered per path, and
    [os.Create] for the files of the posts. *)
Record World := {
  Stat : string -> FileInfo + Errno;
  ReadFile : string -> list Byte.byte + Errno;
  ReadDir : string -> list FileInfo + Errno;
  ParseFiles : string -> Template + error;
  Create : string -> option Errno
}.

(** [os.Stat], [ioutil.ReadFile], [ioutil.ReadDir] and [os.Create]: a failure
    is a [*os.PathError] naming the operation and the path. *)
Definition os_Stat (w : World) (name : string) : FileInfo + error :=
  match Stat w name with
  | inl fi => inl fi
  | inr e => inr (PathError "stat" name e)
  end.

Definition ioutil_ReadFile (w : World) (name : string)
  : list Byte.byte + error :=
  match ReadFile w name with
  | inl data => inl data
  | inr e => inr (PathError "open" name e)
  end.

Definition ioutil_ReadDir (w : World) (name : string)
  : list FileInfo + error :=
  match ReadDir w name with
  | inl entries => inl entries
  | inr e => inr (PathError "open" name e)
  end.

Definition os_Create (w : World) (name : string) : option error :=
  match Create w name with
  | None => None
  | Some e => Some (PathError "open" name e)
  end.

(** What the run did under the destination tree. *)
Inductive fs_event :=
| EvMkdir (name : string) (perm : Z)            (* os.Mkdir, result unused *)
| EvMkdirAll (path : string) (perm : Z)         (* os.MkdirAll, result unused *)
| EvCreate (name : string)                      (* os.Create succeeded *)
| EvChmod (name : string) (mode : Z)            (* File.Chmod, result unused *)
| EvWrite (name : string) (data : list Byte.byte). (* bytes written to the file *)

(** ** Format conversion, posts and the post pass *)

Section Model.

(** [blackfriday.MarkdownBasic], the external markup converter. *)
Variable MarkdownBasic : list Byte.byte -> list Byte.byte.

(** [Format.Convert] *)
Definition Convert (f : Format) (input : list Byte.byte) : list Byte.byte :=
  match f with
  | MARKDOWN => MarkdownBasic input
  | _ => input
  end.

Record Site := { Source : string; Dest : string }.

Definition NewSite (source dest : string) : Site :=
  let source := if decide (source = EmptyString) then "."%string else source in
  let dest := if decide (dest = EmptyString) then "./_site"%string else dest in
  {| Source := source; Dest := dest |}.

Record Post := {
  content : list Byte.byte;
  pubdate : time_Time;
  destFileName : string;
  format : Format;
  fileInfo : FileInfo
}.

(** [NewPostFromPath]: a post, an error, or the panic of a slice expression. *)
Definition NewPostFromPath (w : World) (path : string) : go (Post + error) :=
  match os_Stat w path with
  | inr err => Return (inr err)
  | inl fi =>
      match ioutil_ReadFile w path with
      | inr err => Return (inr err)
      | inl content =>
          let idx := LastIndex (Name fi) "." in
          base ← slice_to (Name fi) idx;
          let newName := base +:+ ".html" in
          ext ← slice_from (Name fi) (idx + 1);
          match formats !! ext with
          | None => Return (inr (errors_New ("unknown format " +:+ ext)))
          | Some fmt =>
              let pubdate := ModTime fi in
              Return (inl {| content := content;
                             pubdate := pubdate;
                             fileInfo := fi;
                             destFileName := newName;
                             format := fmt |})
          end
      end
  end.

(** [Post.dateParts] *)
Definition dateParts (p : Post) : string * string :=
  let year := Sprintf_d (Year (pubdate p)) in
  let month := Sprintf_0d 2 (Month_int (Month (pubdate p))) in
  (year, month).

(** [Post.Generate]: the bytes the template wrote to the writer, and the
    error of its execution. *)
Definition Post_Generate (p : Post) (tmpl : Template)
  : list Byte.byte * option error :=
  let fmtContent := Convert (format p) (content p) in
  Execute tmpl (string_of_list_byte fmtContent).

(** [exists] *)
Definition exists_ (w : World) (path : string) : bool :=
  let err := match os_Stat w path with inl _ => None | inr e => Some e end in
  negb (IsNotExist err).

(** [template.Must]: panics with the error, if there is one. *)
Definition template_Must (r : Template + error) : go Template :=
  match r with
  | inl t => Return t
  | inr err => Panic (PanicError err)
  end.

(** The loop of [generatePosts] over the entries of the posts directory. The
    disk log is threaded through; the files are closed when the function
    returns (the deferred [f.Close]), which the log does not show. *)
Fixpoint generatePosts_loop (w : World) (s : Site) (postsDir : string)
    (tmpl : Template) (entries : list FileInfo) (disk : list fs_event)
  : go (option error) * list fs_event :=
  match entries with
  | [] => (Return None, disk)
  | e :: rest =>
      if HasPrefix (Name e) "." then
        generatePosts_loop w s postsDir tmpl rest disk
      else
        let path := filepath_Join [postsDir; Name e] in
        match NewPostFromPath w path with
        | Panic v => (Panic v, disk)
        | Return (inr err) => (Return (Some err), disk)
        | Return (inl post) =>
            let '(year, month) := dateParts post in
            let dir := filepath_Join [Dest s; year; month] in
            let disk := disk ++ [EvMkdirAll dir 493] in
            let name := filepath_Join [dir; destFileName post] in
            match os_Create w name with
            | Some err => (Return (Some err), disk)
            | None =>
                let disk := disk ++ [EvCreate name] in
                (* post.Generate(f, tmpl): the returned error is not read *)
                let '(out, _) := Post_Generate post tmpl in
                generatePosts_loop w s postsDir tmpl rest
                  (disk ++ [EvWrite name out])
            end
        end
  end.

Definition missing_dirs : error :=
  errors_New "gossip: posts and templates directories must exist".

(** [Site.generatePosts] *)
Definition generatePosts (w : World) (s : Site) (disk : list fs_event)
  : go (option error) * list fs_event :=
  let postsDir := filepath_Join [Source s; "posts"%string] in
  let tmplDir := filepath_Join [Source s; "templates"%string] in
  if negb (exists_ w postsDir) || negb (exists_ w tmplDir) then
    (Return (Some missing_dirs), disk)
  else
    match template_Must (ParseFiles w (filepath_Join [tmplDir; "default.html"%string])) with
    | Panic v => (Panic v, disk)
    | Return tmpl =>
        match ioutil_ReadDir w postsDir with
        | inr err => (Return (Some err), disk)
        | inl entries => generatePosts_loop w s postsDir tmpl entries disk
        end
    end.

(** ** The source tree and the tree copy *)

(** The answers of the operating system while one regular file is copied. *)
Record copy_io := {
  io_open : option Errno;                       (* os.Open(srcName) *)
  io_create : option Errno;                     (* os.Create(destName) *)
  io_stat : option Errno;                       (* src.Stat() *)
  io_copy : list Byte.byte * option Errno       (* io.Copy: bytes written, error *)
}.

(** What [os.Lstat] answers for an entry: its description, or an error. *)
Record lstat_info := {
  st_name : string;
  st_mode : Z;
  st_mtime : time_Time;
  st_lstat : option Errno
}.

(** The source tree as the walk meets it: regular files and directories,
    a directory with the error of reading it (if any) and its entries in
    the order of [readDirNames] (sorted by name). *)
Inductive node :=
| File (st : lstat_info) (io : copy_io)
| Dir (st : lstat_info) (readdir : option Errno) (entries : nodes)
with nodes :=
| no_nodes
| more_nodes (n : node) (rest : nodes).

Definition node_stat (n : node) : lstat_info :=
  match n with
  | File st _ => st
  | Dir st _ _ => st
  end.

Definition node_IsDir (n : node) : bool :=
  match n with
  | File _ _ => false
  | Dir _ _ _ => true
  end.

(** The [os.FileInfo] that [Lstat] gives for a node. *)
Definition node_info (n : node) : FileInfo :=
  {| Name := st_name (node_stat n);
     IsDir := node_IsDir n;
     Mode := st_mode (node_stat n);
     ModTime := st_mtime (node_stat n) |}.

Fixpoint nodes_of_list (l : list node) : nodes :=
  match l with
  | [] => no_nodes
  | n :: rest => more_nodes n (nodes_of_list rest)
  end.

(** One call of the walk function: the path, the error handed in, the error
    it returned. *)
Record call := {
  call_path : string;
  call_err : option error;
  call_ret : option error
}.

(** The error of a failed system call on [path], nil if it succeeded. *)
Definition path_error (op path : string) (e : option Errno) : option error :=
  match e with
  | Some errno => Some (PathError op path errno)
  | None => None
  end.

Section Walk.

(** The walk function ([filepath.WalkFunc]) with the state [St] of its
    closure. It receives the node for [info]; when [err] is not nil Go hands
    in what it has (nil after a failed [Lstat]). *)
Context {St : Type}.
Variable walkFn : string -> node -> option error -> St -> St * option error.

(** A call of [walkFn], recorded in the trace of the walk. *)
Definition invoke (path : string) (n : node) (err : option error)
    (x : St * list call) : (St * list call) * option error :=
  let '(st, r) := walkFn path n err (fst x) in
  ((st, snd x ++ [{| call_path := path; call_err := err; call_ret := r |}]), r).

(** [filepath.walk] and its loop over the names of a directory, as in the
    standard library: a directory is read first, then the walk function is
    called with the error of reading it, then the entries are visited in
    order; any error but [SkipDir] ends the walk. *)
Fixpoint walk (path : string) (n : node) (x : St * list call)
  : (St * list call) * option error :=
  match n with
  | File _ _ => invoke path n None x
  | Dir _ readdir entries =>
      let err := path_error "open" path readdir in
      let '(x1, err1) := invoke path n err x in
      match err, err1 with
      | None, None => walk_names path entries x1
      | _, _ => (x1, err1)
      end
  end
with walk_names (path : string) (names : nodes) (x : St * list call)
  : (St * list call) * option error :=
  match names with
  | no_nodes => (x, None)
  | more_nodes e rest =>
      let filename := filepath_Join [path; st_name (node_stat e)] in
      match path_error "lstat" filename (st_lstat (node_stat e)) with
      | Some err =>
          let '(x', r) := invoke filename e (Some err) x in
          match r with
          | Some e' =>
              if decide (e' = SkipDir) then walk_names path rest x'
              else (x', r)
          | None => walk_names path rest x'
          end
      | None =>
          let '(x', r) := walk filename e x in
          match r with
          | Some e' =>
              if negb (node_IsDir e) || negb (bool_decide (e' = SkipDir))
              then (x', r)
              else walk_names path rest x'
          | None => walk_names path rest x'
          end
      end
  end.

(** [filepath.Walk] *)
Definition filepath_Walk (root : string) (t : node) (st : St)
  : (St * list call) * option error :=
  let '(x, err) :=
    match path_error "lstat" root (st_lstat (node_stat t)) with
    | Some e => invoke root t (Some e) (st, [])
    | None => walk root t (st, [])
    end in
  match err with
  | Some e => if decide (e = SkipDir) then (x, None) else (x, err)
  | None => (x, None)
  end.

End Walk.

(** [copyFile]: the pair it returns and the disk log. *)
Definition copyFile (io : copy_io) (mode : Z) (srcName destName : string)
    (disk : list fs_event) : (Z * option error) * list fs_event :=
  match path_error "open" srcName (io_open io) with
  | Some err => ((0, Some err), disk)
  | None =>
      match path_error "open" destName (io_create io) with
      | Some err => ((0, Some err), disk)
      | None =>
          let disk := disk ++ [EvCreate destName] in
          match path_error "stat" srcName (io_stat io) with
          | Some err => ((0, Some err), disk)
          | None =>
              let disk := disk ++ [EvChmod destName mode] in
              let '(data, e) := io_copy io in
              ((Z.of_nat (length data), path_error "copy" destName e),
               disk ++ [EvWrite destName data])
          end
      end
  end.

(** The state of the closure in [copyTree]: the flag [ok], and the disk. *)
Record copy_state := { ok : bool; disk : list fs_event }.

(** The function literal that [copyTree] hands to [filepath.Walk]. *)
Definition copyTree_fn (s : Site) (path : string) (n : node)
    (err : option error) (st : copy_state) : copy_state * option error :=
  match err with
  | Some e => ({| ok := false; disk := disk st |}, Some e)
  | None =>
      let info := node_info n in
      if IsDir info &&
         (bool_decide (Name info = "posts"%string) ||
          bool_decide (Name info = "templates"%string))
      then (st, Some SkipDir)
      else
        match filepath_Rel (Source s) path with
        | inr e => ({| ok := false; disk := disk st |}, Some e)
        | inl rel =>
            if HasPrefix rel "." || Contains rel "/." then (st, None)
            else
              let destName := filepath_Join [Dest s; rel] in
              match n with
              | Dir _ _ _ =>
                  (* os.Mkdir(destName, info.Mode()): the error is not read *)
                  ({| ok := ok st;
                      disk := disk st ++ [EvMkdir destName (Mode info)] |},
                   None)
              | File _ io =>
                  (* the file mode that src.Stat() reports is that of info *)
                  match copyFile io (Mode info) path destName (disk st) with
                  | ((_, Some e), d) => ({| ok := false; disk := d |}, Some e)
                  | ((_, None), d) => ({| ok := ok st; disk := d |}, None)
                  end
              end
        end
  end.

Definition copy_errors : error := errors_New "error(s) copying source tree".

(** [Site.copyTree]: its error, the disk log, and the trace of the walk. *)
Definition copyTree (s : Site) (t : node) (disk0 : list fs_event)
  : option error * list fs_event * list call :=
  let '((st, trace), _) :=
    filepath_Walk (copyTree_fn s) (Source s) t {| ok := true; disk := disk0 |} in
  if negb (ok st) then (Some copy_errors, disk st, trace)
  else (None, disk st, trace).

(** [Site.Generate] *)
Definition Site_Generate (w : World) (t : node) (s : Site)
  : go (option error) * list fs_event :=
  let '(err, disk, _) := copyTree s t [] in
  match err with
  | Some e => (Return (Some e), disk)
  | None => generatePosts w s disk
  end.

End Model.

(** ** Vocabulary of the properties *)

(** The string has no ['.']. *)
Definition no_dot (s : string) : Prop := Contains s "." = false.

Definition is_digit (c : ascii) : bool :=
  (48 <=? nat_of_ascii c)%nat && (nat_of_ascii c <=? 57)%nat.

Fixpoint all_digits (s : string) : bool :=
  match s with
  | EmptyString => true
  | String c s' => is_digit c && all_digits s'
  end.

(** A string of exactly [n] decimal digits. *)
Definition digit_string (n : nat) (s : string) : bool :=
  (String.length s =? n)%nat && all_digits s.

(** [f] holds on [lo], [lo + 1], ..., [lo + n - 1]. *)
Fixpoint check_range (f : Z -> bool) (lo : Z) (n : nat) : bool :=
  match n with
  | O => true
  | S n' => f lo && check_range f (lo + 1) n'
  end.

(** ** Concrete inputs *)

Definition july_2023 : time_Time := {| Year := 2023; Month := July; Day := 4 |}.

Definition file_named (name : string) : FileInfo :=
  {| Name := name; IsDir := false; Mode := 420; ModTime := july_2023 |}.

Definition dir_named (name : string) : FileInfo :=
  {| Name := name; IsDir := true; Mode := 493; ModTime := july_2023 |}.

(** The last segment of a path. *)
Definition base_name (path : string) : string :=
  List.last (segments path) EmptyString.

(** A template that writes the content between two markers. *)
Definition body_template : Template :=
  {| Execute := fun c =>
       (list_byte_of_string ("<body>" +:+ c +:+ "</body>"), None) |}.

(** A template whose execution fails after writing the opening marker. *)
Definition failing_template : Template :=
  {| Execute := fun c =>
       (list_byte_of_string "<body>",
        Some (TemplateError "template: default.html: error calling index")) |}.

(** A world in which the posts directory lists [names], each a readable
    file holding [# Hi]; the template file parses to [tmpl]; every file can
    be created. *)
Definition posts_world (names : list string) (tmpl : Template + error)
  : World :=
  {| Stat := fun path =>
       if bool_decide (base_name path = "posts"%string) ||
          bool_decide (base_name path = "templates"%string)
       then inl (dir_named (base_name path))
       else inl (file_named (base_name path));
     ReadFile := fun _ => inl (list_byte_of_string "# Hi");
     ReadDir := fun _ => inl (map file_named names);
     ParseFiles := fun _ => tmpl;
     Create := fun _ => None |}.

(** A post whose file was last modified in the year 999. *)
Definition post_of_year_999 : Post :=
  {| content := list_byte_of_string "# Hi";
     pubdate := {| Year := 999; Month := July; Day := 4 |};
     destFileName := "hello.html";
     format := MARKDOWN;
     fileInfo := {| Name := "hello.md"; IsDir := false; Mode := 420;
                    ModTime := {| Year := 999; Month := July; Day := 4 |} |} |}.

Definition entry_named (name : string) (mode : Z) : lstat_info :=
  {| st_name := name; st_mode := mode; st_mtime := july_2023;
     st_lstat := None |}.

(** A regular file that copies without error. *)
Definition plain_file (name : string) : node :=
  File (entry_named name 420)
       {| io_open := None; io_create := None; io_stat := None;
          io_copy := (list_byte_of_string "data", None) |}.

(** A regular file that cannot be opened. *)
Definition unreadable_file (name : string) : node :=
  File (entry_named name 0)
       {| io_open := Some EACCES; io_create := None; io_stat := None;
          io_copy := ([], None) |}.

Definition directory (name : string) (entries : list node) : node :=
  Dir (entry_named name 493) None (nodes_of_list entries).

(** The source tree [src] with the posts [names] and the template. *)
Definition site_tree (names : list string) : node :=
  directory "src"
    [directory "posts" (map plain_file names);
     directory "templates" [plain_file "default.html"]].

Definition src_out : Site := {| Source := "src"; Dest := "out" |}.

(** A world in which [src/posts] is a regular file. *)
Definition posts_is_a_file : World :=
  {| Stat := fun path =>
       if bool_decide (base_name path = "templates"%string)
       then inl (dir_named "templates")
       else inl (file_named (base_name path));
     ReadFile := fun _ => inl (list_byte_of_string "# Hi");
     ReadDir := fun _ => inr ENOTDIR;
     ParseFiles := fun _ => inl body_template;
     Create := fun _ => None |}.

Definition posts_is_a_file_tree : node :=
  directory "src"
    [plain_file "posts"; directory "templates" [plain_file "default.html"]].

(** A world in which [src/templates] does not exist. *)
Definition no_templates : World :=
  {| Stat := fun path =>
       if bool_decide (base_name path = "templates"%string)
       then inr ENOENT
       else if bool_decide (base_name path = "posts"%string)
            then inl (dir_named "posts")
            else inl (file_named (base_name path));
     ReadFile := fun _ => inl (list_byte_of_string "# Hi");
     ReadDir := fun _ => inl [file_named "hello.md"];
     ParseFiles := fun path => inr (PathError "open" path ENOENT);
     Create := fun _ => None |}.

Definition no_templates_tree : node :=
  directory "src" [directory "posts" [plain_file "hello.md"]].

Definition parse_error : error :=
  TemplateError "template: default.html:1: unexpected unclosed action".

(** Where the post pass writes a post: [dest/<year>/<month>/<destFileName>]. *)
Definition post_dest (s : Site) (p : Post) : string :=
  Dest s +:+ "/" +:+ fst (dateParts p) +:+ "/" +:+ snd (dateParts p)
         +:+ "/" +:+ destFileName p.

(** The directory of a post: [dest/<year>/<month>]. *)
Definition post_dir (s : Site) (p : Post) : string :=
  Dest s +:+ "/" +:+ fst (dateParts p) +:+ "/" +:+ snd (dateParts p).

(** A template with the errors of its execution removed. *)
Definition without_errors (tmpl : Template) : Template :=
  {| Execute := fun c => (fst (Execute tmpl c), None) |}.

(** ** Vocabulary of the tree copy *)

Scheme node_mut_ind := Induction for node Sort Prop
  with nodes_mut_ind := Induction for nodes Sort Prop.
Combined Scheme node_nodes_ind from node_mut_ind, nodes_mut_ind.

(** The walk function reported a failure: an error other than [SkipDir]. *)
Definition is_failure (r : option error) : bool :=
  match r with
  | Some SkipDir => false
  | Some _ => true
  | None => false
  end.

Definition failed (c : call) : bool := is_failure (call_ret c).

(** The three results of [copyTree]. *)
Definition copy_error (r : option error * list fs_event * list call)
  : option error := fst (fst r).

Definition copy_disk (r : option error * list fs_event * list call)
  : list fs_event := snd (fst r).

Definition copy_trace (r : option error * list fs_event * list call)
  : list call := snd r.

(** The tree [src] with the files [a.txt], which cannot be opened, and
    [b.txt], which can be copied. *)
Definition a_fails_b_fine : node :=
  directory "src" [unreadable_file "a.txt"; plain_file "b.txt"].

(** A call that was handed an error by the walk failed, with that error. *)
Definition handed_error_fails (c : call) : Prop :=
  forall e, call_err c = Some e -> call_ret c = Some e /\ failed c = true.

(** From [x] to [x'] with result [r]: the trace grew by calls of which only
    the last can have failed, and it did when [r] is a failure; [ok] is
    cleared exactly then. *)
Definition steps (x x' : copy_state * list call) (r : option error) : Prop :=
  exists calls,
    snd x' = snd x ++ calls /\
    Forall handed_error_fails calls /\
    if is_failure r then
      ok (fst x') = false /\
      exists pre c, calls = pre ++ [c] /\ failed c = true /\
                    Forall (fun c => failed c = false) pre
    else
      ok (fst x') = ok (fst x) /\ Forall (fun c => failed c = false) calls.

(** A name as [readDirNames] gives it: not empty, without separator. *)
Definition name_ok (name : string) : bool :=
  negb (bool_decide (name = EmptyString)) && negb (Contains name "/").

(** Every entry below the root has such a name. *)
Fixpoint wf_node (n : node) : bool :=
  match n with
  | File _ _ => true
  | Dir _ _ entries => wf_nodes entries
  end
with wf_nodes (ns : nodes) : bool :=
  match ns with
  | no_nodes => true
  | more_nodes e rest =>
      name_ok (st_name (node_stat e)) && wf_node e && wf_nodes rest
  end.

Definition ok_names (names : list string) : Prop :=
  Forall (fun name => name_ok name = true) names.

(** A hidden path segment starts with ['.']. *)
Definition hidden (seg : string) : bool := HasPrefix seg ".".

(** The reserved directory names. *)
Definition reserved (seg : string) : bool :=
  bool_decide (seg = "posts"%string) || bool_decide (seg = "templates"%string).

Definition free (names : list string) : Prop :=
  Forall (fun name => reserved name = false) names.

(** The path an event acts on. *)
Definition event_path (ev : fs_event) : string :=
  match ev with
  | EvMkdir name _ => name
  | EvMkdirAll path _ => path
  | EvCreate name => name
  | EvChmod name _ => name
  | EvWrite name _ => name
  end.

Definition is_mkdir (ev : fs_event) : bool :=
  match ev with
  | EvMkdir _ _ => true
  | _ => false
  end.

(** The event acts on [dest/rel], where no segment of [rel] is hidden, no
    segment but the last is a reserved name, and not the last either when a
    directory is made. *)
Definition clean_event (s : Site) (ev : fs_event) : Prop :=
  exists rel,
    event_path ev = filepath_Join [Dest s; rel] /\
    Forall (fun seg => hidden seg = false) (segments rel) /\
    Forall (fun seg => reserved seg = false) (removelast (segments rel)) /\
    (is_mkdir ev = true ->
     Forall (fun seg => reserved seg = false) (segments rel)).

(** The path of the entry reached from the root [src] through [names]. *)
Definition walk_path (src : string) (names : list string) : string :=
  match names with
  | [] => src
  | _ :: _ =>
      if decide (src = EmptyString) then strings_Join names "/"
      else src +:+ "/" +:+ strings_Join names "/"
  end.

(** A tree with hidden entries and reserved directories at two depths. *)
Definition mixed_tree : node :=
  directory "src"
    [directory ".git" [plain_file "config"];
     plain_file ".gitignore";
     directory "images"
       [plain_file ".hidden"; plain_file "logo.png";
        directory "posts" [plain_file "draft.md"]];
     plain_file "index.html";
     directory "posts" [plain_file "hello.md"];
     directory "sub" [directory ".hidden" [plain_file "file.txt"]];
     directory "templates" [plain_file "default.html"]].

(** The source tree of the end-to-end scenario: [images/logo.png], the post
    [posts/hello.md] and the template. *)
Definition hello_tree : node :=
  directory "src"
    [directory "images" [plain_file "logo.png"];
     directory "posts" [plain_file "hello.md"];
     directory "templates" [plain_file "default.html"]].

(** ** Vocabulary of the further properties *)

(** The integer that a decimal string denotes. *)
Definition Atoi (s : string) : option Z :=
  option_map Z.of_int (NilZero.int_of_string s).

(** The path under which the post pass discovers a listed entry. *)
Definition entry_path (postsDir : string) (e : FileInfo) : string :=
  filepath_Join [postsDir; Name e].

(** The listed entries that the post pass does not skip. *)
Definition shown (entries : list FileInfo) : list FileInfo :=
  filter (fun e => HasPrefix (Name e) "." = false) entries.

(** The posts that [a.md] and [a.txt] give in a world of July 2023. *)
Definition post_a (name : string) : Post :=
  {| content := list_byte_of_string "# Hi";
     pubdate := july_2023;
     destFileName := "a.html";
     format := MARKDOWN;
     fileInfo := file_named name |}.

(** What the post pass does on disk for one post: the directory, the file,
    the bytes that the template wrote. *)
Definition post_events (md : list Byte.byte -> list Byte.byte) (s : Site)
    (tmpl : Template) (p : Post) : list fs_event :=
  [EvMkdirAll (post_dir s p) 493;
   EvCreate (post_dest s p);
   EvWrite (post_dest s p) (fst (Post_Generate md p tmpl))].

(** The entry is discovered as the post [p], whose file can be created. *)
Definition rendered (w : World) (s : Site) (postsDir : string)
    (e : FileInfo) (p : Post) : Prop :=
  NewPostFromPath w (entry_path postsDir e) = Return (inl p) /\
  os_Create w (post_dest s p) = None.

(** The errors that [Site.Generate] returns. *)
Definition returned_error (e : error) : Prop :=
  e = copy_errors \/ e = missing_dirs \/
  (exists op path errno, e = PathError op path errno) \/
  (exists ext, e = errors_New ("unknown format " +:+ ext)).

(** A listing of two posts and a hidden file between them. *)
Definition listing_with_hidden : list FileInfo :=
  [file_named "a.md"; file_named ".draft"; file_named "b.html"].

(** No name on the way to the entry is hidden. *)
Definition visible (names : list string) : bool :=
  negb (existsb hidden names).

(** The destination of the entry reached through [names]. *)
Definition dest_of (s : Site) (names : list string) : string :=
  filepath_Join [Dest s; strings_Join names "/"].

(** What a tree copy without failure leaves on disk for the entry [n]
    reached from the root through [names], and for what is below it: a
    directory with a reserved name gives nothing; the root and the entries
    with a hidden name on their way give nothing themselves; any other
    directory is made with its mode, any other file is created, given its
    mode and written with the bytes copied. *)
Fixpoint copied (s : Site) (names : list string) (n : node)
  : list fs_event :=
  match n with
  | File st io =>
      match names with
      | [] => []
      | _ :: _ =>
          if visible names then
            [EvCreate (dest_of s names);
             EvChmod (dest_of s names) (st_mode st);
             EvWrite (dest_of s names) (fst (io_copy io))]
          else []
      end
  | Dir st _ entries =>
      if reserved (st_name st) then []
      else
        match names with
        | [] => []
        | _ :: _ =>
            if visible names then [EvMkdir (dest_of s names) (st_mode st)]
            else []
        end ++ copied_names s names entries
  end
with copied_names (s : Site) (names : list string) (ns : nodes)
  : list fs_event :=
  match ns with
  | no_nodes => []
  | more_nodes e rest =>
      copied s (names ++ [st_name (node_stat e)]) e ++
      copied_names s names rest
  end.

(** The events of one call of the walk function that does not fail. *)
Definition visit_events (s : Site) (names : list string) (n : node)
  : list fs_event :=
  match n with
  | File st io =>
      match names with
      | [] => []
      | _ :: _ =>
          if visible names then
            [EvCreate (dest_of s names);
             EvChmod (dest_of s names) (st_mode st);
             EvWrite (dest_of s names) (fst (io_copy io))]
          else []
      end
  | Dir st _ _ =>
      if reserved (st_name st) then []
      else
        match names with
        | [] => []
        | _ :: _ =>
            if visible names then [EvMkdir (dest_of s names) (st_mode st)]
            else []
        end
  end.

(** A source root that is itself named [posts]. *)
Definition root_named_posts : node :=
  directory "posts" [plain_file "index.html"; directory "css" []].

Definition site_in_posts : Site := {| Source := "posts"; Dest := "out" |}.

(** A file whose copy breaks off after three bytes. *)
Definition io_breaks : copy_io :=
  {| io_open := None; io_create := None; io_stat := None;
     io_copy := (list_byte_of_string "dat", Some EIO) |}.

(** The call is for an entry reached from the root through names that a
    directory listing gives, none of them but the last reserved. *)
Definition outside_reserved (s : Site) (c : call) : Prop :=
  exists names,
    call_path c = walk_path (Source s) names /\
    ok_names names /\ free (removelast names).

(** ** Strings *)

Lemma append_nil (b : string) : EmptyString +:+ b = b.
Proof. reflexivity. Qed.

Lemma append_cons (c : ascii) (a b : string) :
  String c a +:+ b = String c (a +:+ b).
Proof. reflexivity. Qed.

Lemma append_assoc (a b c : string) : (a +:+ b) +:+ c = a +:+ (b +:+ c).
Proof.
  induction a as [|x a IH]; [reflexivity|].
  now rewrite !append_cons, IH.
Qed.

Lemma HasPrefix_app (a b : string) : HasPrefix (a +:+ b) a = true.
Proof.
  induction a as [|c a IH]; simpl.
  - destruct b; reflexivity.
  - destruct (decide (c = c)); [exact IH | congruence].
Qed.

Lemma str_drop_app (a b : string) : str_drop (String.length a) (a +:+ b) = b.
Proof. induction a as [|c a IH]; simpl; [reflexivity | exact IH]. Qed.

Lemma str_take_app (a b : string) : str_take (String.length a) (a +:+ b) = a.
Proof.
  induction a as [|c a IH]; simpl.
  - destruct b; reflexivity.
  - now rewrite IH.
Qed.

Lemma length_app (a b : string) :
  String.length (a +:+ b) = (String.length a + String.length b)%nat.
Proof. induction a as [|c a IH]; simpl; [reflexivity | now rewrite IH]. Qed.

(** Without a ['.'], [LastIndex] answers [-1]. *)
Lemma LastIndex_no_dot (s : string) : no_dot s -> LastIndex s "." = -1.
Proof.
  unfold no_dot. induction s as [|c s IH]; intros H.
  - reflexivity.
  - cbn [Contains] in H. apply orb_false_iff in H as [Hh Ht].
    cbn [LastIndex]. rewrite (IH Ht). simpl (0 <=? -1). cbv iota.
    now rewrite Hh.
Qed.

(** With a ['.'], [LastIndex] is the index of a ['.'], and none follows. *)
Lemma LastIndex_dot (pre suf : string) :
  no_dot suf -> LastIndex (pre +:+ "." +:+ suf) "." = len pre.
Proof.
  intros Hs. unfold len. induction pre as [|c pre IH].
  - rewrite append_nil, append_cons, append_nil. cbn [LastIndex].
    rewrite (LastIndex_no_dot _ Hs). simpl (0 <=? -1). cbv iota.
    cbn [HasPrefix]. destruct (decide ("."%char = "."%char)); [|congruence].
    destruct suf; reflexivity.
  - rewrite append_cons. cbn [String.length LastIndex].
    rewrite IH.
    destruct (0 <=? Z.of_nat (String.length pre)) eqn:E.
    + lia.
    + apply Z.leb_gt in E. lia.
Qed.

Lemma Contains_dot_split (s : string) :
  Contains s "." = true ->
  exists pre suf, s = pre +:+ "." +:+ suf /\ no_dot suf.
Proof.
  induction s as [|c s IH]; intros H.
  - discriminate.
  - destruct (Contains s ".") eqn:E.
    + destruct (IH eq_refl) as (pre & suf & -> & Hs).
      exists (String c pre), suf. split; [reflexivity | exact Hs].
    + cbn [Contains] in H. rewrite E, orb_false_r in H.
      cbn [HasPrefix] in H. destruct (decide ("."%char = c)) as [<-|]; [|discriminate].
      exists EmptyString, s. split; [reflexivity | exact E].
Qed.

(** ** Post discovery *)

(** What [NewPostFromPath] computes for a readable file whose name has a
    ['.']: the split at the last ['.'] and the lookup of the extension. *)
Lemma NewPostFromPath_dot (w : World) (path : string) (fi : FileInfo)
    (data : list Byte.byte) (pre ext : string) :
  Stat w path = inl fi ->
  ReadFile w path = inl data ->
  Name fi = pre +:+ "." +:+ ext ->
  no_dot ext ->
  NewPostFromPath w path =
    match formats !! ext with
    | Some f =>
        Return (inl {| content := data; pubdate := ModTime fi;
                       destFileName := pre +:+ ".html";
                       format := f; fileInfo := fi |})
    | None => Return (inr (errors_New ("unknown format " +:+ ext)))
    end.
Proof.
  intros HS HR HN Hd. unfold NewPostFromPath, os_Stat, ioutil_ReadFile.
  rewrite HS, HR, HN, (LastIndex_dot pre ext Hd).
  assert (Hlen : len (pre +:+ "." +:+ ext) = len pre + 1 + len ext).
  { unfold len. rewrite !length_app. simpl. lia. }
  unfold slice_to, slice_from. rewrite Hlen.
  assert (H0 : 0 <= len pre) by (unfold len; lia).
  assert (H1 : 0 <= len ext) by (unfold len; lia).
  replace (0 <=? len pre) with true by (symmetry; apply Z.leb_le; lia).
  replace (len pre <=? len pre + 1 + len ext) with true
    by (symmetry; apply Z.leb_le; lia).
  replace (0 <=? len pre + 1) with true by (symmetry; apply Z.leb_le; lia).
  replace (len pre + 1 <=? len pre + 1 + len ext) with true
    by (symmetry; apply Z.leb_le; lia).
  cbn [andb mbind go_bind].
  unfold len. rewrite Nat2Z.id, str_take_app.
  replace (Z.to_nat (Z.of_nat (String.length pre) + 1))
    with (String.length (pre +:+ ".")) by (rewrite length_app; simpl; lia).
  rewrite <- (append_assoc pre "." ext), str_drop_app.
  destruct (formats !! ext); reflexivity.
Qed.

(** Without a ['.'] in the name, the first slice expression panics. *)
Lemma NewPostFromPath_no_dot (w : World) (path : string) (fi : FileInfo)
    (data : list Byte.byte) :
  Stat w path = inl fi ->
  ReadFile w path = inl data ->
  no_dot (Name fi) ->
  NewPostFromPath w path = Panic slice_bounds.
Proof.
  intros HS HR Hd. unfold NewPostFromPath, os_Stat, ioutil_ReadFile.
  rewrite HS, HR, (LastIndex_no_dot _ Hd). reflexivity.
Qed.

Lemma formats_txt : formats !! "txt"%string = Some MARKDOWN.
Proof. reflexivity. Qed.

Lemma formats_md : formats !! "md"%string = Some MARKDOWN.
Proof. reflexivity. Qed.

Lemma formats_html : formats !! "html"%string = Some HTML.
Proof. reflexivity. Qed.

(** The table has no other key. *)
Lemma formats_other (ext : string) :
  ext <> "txt"%string -> ext <> "md"%string -> ext <> "html"%string ->
  formats !! ext = None.
Proof.
  intros H1 H2 H3. unfold formats.
  rewrite !lookup_insert_ne by congruence. apply lookup_empty.
Qed.

(** C3: the extension after the last ['.'] of a readable post file resolves
    to MARKDOWN for [txt] and [md] and to HTML for [html]; any other
    extension, compared byte for byte, makes discovery fail with the error
    [unknown format <extension>]. *)
Theorem extension_resolution (w : World) (path : string) (fi : FileInfo)
    (data : list Byte.byte) (pre ext : string) :
  Stat w path = inl fi ->
  ReadFile w path = inl data ->
  Name fi = pre +:+ "." +:+ ext ->
  no_dot ext ->
  (ext = "txt"%string \/ ext = "md"%string ->
   exists p, NewPostFromPath w path = Return (inl p) /\ format p = MARKDOWN) /\
  (ext = "html"%string ->
   exists p, NewPostFromPath w path = Return (inl p) /\ format p = HTML) /\
  (ext <> "txt"%string -> ext <> "md"%string -> ext <> "html"%string ->
   NewPostFromPath w path =
     Return (inr (errors_New ("unknown format " +:+ ext)))).
Proof.
  intros HS HR HN Hd.
  pose proof (NewPostFromPath_dot w path fi data pre ext HS HR HN Hd) as E.
  split; [|split].
  - intros [-> | ->]; rewrite ?formats_txt, ?formats_md in E;
      eexists; (split; [exact E | reflexivity]).
  - intros ->. rewrite formats_html in E.
    eexists; (split; [exact E | reflexivity]).
  - intros H1 H2 H3. now rewrite (formats_other ext H1 H2 H3) in E.
Qed.

(** An upper-case [MD] is not [md]: the post [note.MD] is refused. *)
Lemma extension_resolution_witness :
  NewPostFromPath (posts_world ["note.MD"%string] (inl body_template))
                  "posts/note.MD" =
    Return (inr (errors_New "unknown format MD")).
Proof.
  apply (extension_resolution
           (posts_world ["note.MD"%string] (inl body_template))
           "posts/note.MD" (file_named "note.MD")
           (list_byte_of_string "# Hi") "note" "MD"
           eq_refl eq_refl eq_refl eq_refl); discriminate.
Defined.

(** C6: for a post file whose name is [pre.ext], [ext] without ['.'] and
    registered, the post's [destFileName] is [pre.html]: only what follows
    the last ['.'] is replaced. *)
Theorem destFileName_replaces_last_extension (w : World) (path : string)
    (fi : FileInfo) (data : list Byte.byte) (pre ext : string) (f : Format) :
  Stat w path = inl fi ->
  ReadFile w path = inl data ->
  Name fi = pre +:+ "." +:+ ext ->
  no_dot ext ->
  formats !! ext = Some f ->
  exists p, NewPostFromPath w path = Return (inl p) /\
            destFileName p = pre +:+ ".html".
Proof.
  intros HS HR HN Hd Hf.
  pose proof (NewPostFromPath_dot w path fi data pre ext HS HR HN Hd) as E.
  rewrite Hf in E. eexists. split; [exact E | reflexivity].
Qed.

(** The source [foo.bar.md] yields [foo.bar.html]. *)
Lemma destFileName_foo_bar_md :
  exists p,
    NewPostFromPath (posts_world ["foo.bar.md"%string] (inl body_template))
                    "posts/foo.bar.md" = Return (inl p) /\
    destFileName p = "foo.bar.html"%string.
Proof.
  exact (destFileName_replaces_last_extension
           (posts_world ["foo.bar.md"%string] (inl body_template))
           "posts/foo.bar.md" (file_named "foo.bar.md")
           (list_byte_of_string "# Hi") "foo.bar" "md" MARKDOWN
           eq_refl eq_refl eq_refl eq_refl eq_refl).
Defined.

(** C9: [Convert] of the HTML variant returns its input. *)
Theorem Convert_HTML_identity (md : list Byte.byte -> list Byte.byte)
    (x : list Byte.byte) :
  Convert md HTML x = x.
Proof. reflexivity. Qed.

(** C10: for a readable file, the two slice expressions of
    [NewPostFromPath] are both in bounds exactly when the base name has a
    ['.']; without one the function panics with a slice-bounds runtime
    error, with one it returns. *)
Theorem slices_need_a_dot (w : World) (path : string) (fi : FileInfo)
    (data : list Byte.byte) :
  Stat w path = inl fi ->
  ReadFile w path = inl data ->
  let idx := LastIndex (Name fi) "." in
  (((exists b, slice_to (Name fi) idx = Return b) /\
    (exists e, slice_from (Name fi) (idx + 1) = Return e)) <->
   Contains (Name fi) "." = true) /\
  (Contains (Name fi) "." = false ->
   NewPostFromPath w path = Panic slice_bounds) /\
  (Contains (Name fi) "." = true ->
   exists r, NewPostFromPath w path = Return r).
Proof.
  intros HS HR idx. subst idx.
  destruct (Contains (Name fi) ".") eqn:HC.
  - destruct (Contains_dot_split _ HC) as (pre & ext & HN & Hd).
    pose proof (NewPostFromPath_dot w path fi data pre ext HS HR HN Hd) as E.
    assert (Hlen : len (Name fi) = len pre + 1 + len ext).
    { rewrite HN. unfold len. rewrite !length_app. simpl. lia. }
    assert (H0 : 0 <= len pre) by (unfold len; lia).
    assert (H1 : 0 <= len ext) by (unfold len; lia).
    split; [|split].
    + split; [reflexivity|]. intros _.
      assert (Hi : LastIndex (Name fi) "." = len pre)
        by (rewrite HN; apply LastIndex_dot; assumption).
      rewrite Hi. unfold slice_to, slice_from. rewrite Hlen.
      replace (0 <=? len pre) with true by (symmetry; apply Z.leb_le; lia).
      replace (len pre <=? len pre + 1 + len ext) with true
        by (symmetry; apply Z.leb_le; lia).
      replace (0 <=? len pre + 1) with true by (symmetry; apply Z.leb_le; lia).
      replace (len pre + 1 <=? len pre + 1 + len ext) with true
        by (symmetry; apply Z.leb_le; lia).
      split; eexists; reflexivity.
    + discriminate.
    + intros _. rewrite E. destruct (formats !! ext); eexists; reflexivity.
  - split; [|split].
    + split; [|discriminate]. intros [[b Hb] _].
      rewrite (LastIndex_no_dot _ HC) in Hb. discriminate.
    + intros _. exact (NewPostFromPath_no_dot w path fi data HS HR HC).
    + discriminate.
Qed.

(** The post file [README] has no ['.']: discovery panics. *)
Lemma slices_need_a_dot_witness :
  NewPostFromPath (posts_world ["README"%string] (inl body_template))
                  "posts/README" = Panic slice_bounds.
Proof.
  apply (slices_need_a_dot
           (posts_world ["README"%string] (inl body_template))
           "posts/README" (file_named "README")
           (list_byte_of_string "# Hi") eq_refl eq_refl).
  reflexivity.
Defined.

(** ** Dates and the output path of a post *)

Lemma check_range_sound (f : Z -> bool) (n : nat) :
  forall lo, check_range f lo n = true ->
  forall z, lo <= z < lo + Z.of_nat n -> f z = true.
Proof.
  induction n as [|n IH]; intros lo H z Hz.
  - lia.
  - cbn [check_range] in H. apply andb_true_iff in H as [H0 H1].
    destruct (decide (z = lo)) as [->|Hne]; [exact H0|].
    apply (IH (lo + 1) H1). lia.
Qed.

(** A year from 1000 to 9999 is rendered by [%d] as four digits. *)
Lemma year_four_digits (y : Z) :
  1000 <= y <= 9999 -> digit_string 4 (Sprintf_d y) = true.
Proof.
  intros Hy.
  apply (check_range_sound (fun y => digit_string 4 (Sprintf_d y))
           (Z.to_nat 9000) 1000).
  - vm_compute. reflexivity.
  - lia.
Qed.

(** A month is rendered by [%02d] as two digits. *)
Lemma month_two_digits (m : time_Month) :
  digit_string 2 (Sprintf_0d 2 (Month_int m)) = true.
Proof. destruct m; reflexivity. Qed.

Lemma string_of_uint_nonempty (d : Decimal.uint) :
  NilZero.string_of_uint d <> EmptyString.
Proof. destruct d; discriminate. Qed.

Lemma Sprintf_d_nonempty (v : Z) : Sprintf_d v <> EmptyString.
Proof.
  unfold Sprintf_d, NilZero.string_of_int.
  destruct (Z.to_int v); [apply string_of_uint_nonempty | discriminate].
Qed.

Lemma month_nonempty (m : time_Month) :
  Sprintf_0d 2 (Month_int m) <> EmptyString.
Proof. destruct m; discriminate. Qed.

Lemma append_nonempty_r (a b : string) :
  b <> EmptyString -> a +:+ b <> EmptyString.
Proof. destruct a; [intros H; exact H | discriminate]. Qed.

Lemma append_nonempty_l (a b : string) :
  a <> EmptyString -> a +:+ b <> EmptyString.
Proof. destruct a; [congruence | discriminate]. Qed.

(** [filepath.Join] of non-empty elements puts one separator between them. *)
Lemma filepath_Join_2 (a b : string) :
  a <> EmptyString -> b <> EmptyString ->
  filepath_Join [a; b] = a +:+ "/" +:+ b.
Proof.
  intros Ha Hb. unfold filepath_Join.
  rewrite filter_cons_True by exact Ha.
  rewrite filter_cons_True by exact Hb.
  reflexivity.
Qed.

Lemma filepath_Join_3 (a b c : string) :
  a <> EmptyString -> b <> EmptyString -> c <> EmptyString ->
  filepath_Join [a; b; c] = a +:+ "/" +:+ b +:+ "/" +:+ c.
Proof.
  intros Ha Hb Hc. unfold filepath_Join.
  rewrite filter_cons_True by exact Ha.
  rewrite filter_cons_True by exact Hb.
  rewrite filter_cons_True by exact Hc.
  reflexivity.
Qed.

(** A discovered post has a [destFileName] that ends in [.html]. *)
Lemma NewPostFromPath_destFileName (w : World) (path : string) (p : Post) :
  NewPostFromPath w path = Return (inl p) ->
  exists base, destFileName p = base +:+ ".html".
Proof.
  unfold NewPostFromPath. intros H.
  destruct (os_Stat w path) as [fi|]; [|discriminate].
  destruct (ioutil_ReadFile w path) as [data|]; [|discriminate].
  destruct (slice_to (Name fi) (LastIndex (Name fi) ".")) as [base|];
    [|discriminate].
  cbn [mbind go_bind] in H.
  destruct (slice_from (Name fi) (LastIndex (Name fi) "." + 1)) as [ext|];
    [|discriminate].
  cbn [mbind go_bind] in H.
  destruct (formats !! ext); [|discriminate].
  injection H as <-. exists base. reflexivity.
Qed.

(** C5 (amended): the post pass writes a discovered post to
    [dest/<year>/<month>/<destFileName>]; the month is two digits, zero
    padded; the year is the decimal rendering of the year of [pubdate], four
    digits when that year is between 1000 and 9999. Both come from
    [pubdate] alone. *)
Theorem post_output_path (md : list Byte.byte -> list Byte.byte) (w : World)
    (s : Site) (postsDir : string) (tmpl : Template) (e : FileInfo)
    (rest : list FileInfo) (disk : list fs_event) (p : Post) :
  HasPrefix (Name e) "." = false ->
  NewPostFromPath w (filepath_Join [postsDir; Name e]) = Return (inl p) ->
  Dest s <> EmptyString ->
  generatePosts_loop md w s postsDir tmpl (e :: rest) disk =
    match os_Create w (post_dest s p) with
    | Some err => (Return (Some err), disk ++ [EvMkdirAll (post_dir s p) 493])
    | None =>
        generatePosts_loop md w s postsDir tmpl rest
          (((disk ++ [EvMkdirAll (post_dir s p) 493])
                  ++ [EvCreate (post_dest s p)])
                  ++ [EvWrite (post_dest s p) (fst (Post_Generate md p tmpl))])
    end /\
  dateParts p = (Sprintf_d (Year (pubdate p)),
                 Sprintf_0d 2 (Month_int (Month (pubdate p)))) /\
  digit_string 2 (snd (dateParts p)) = true /\
  (1000 <= Year (pubdate p) <= 9999 ->
   digit_string 4 (fst (dateParts p)) = true).
Proof.
  intros Hh Hp Hd.
  destruct (NewPostFromPath_destFileName w _ p Hp) as [base Hbase].
  assert (Hn : destFileName p <> EmptyString)
    by (rewrite Hbase; apply append_nonempty_r; discriminate).
  split; [|split; [reflexivity | split]].
  - cbn [generatePosts_loop]. rewrite Hh, Hp.
    unfold dateParts at 1.
    rewrite (filepath_Join_3 (Dest s) _ _ Hd (Sprintf_d_nonempty _)
               (month_nonempty _)).
    rewrite filepath_Join_2;
      [|apply append_nonempty_l; exact Hd | exact Hn].
    unfold post_dest, post_dir, dateParts. cbn [fst snd].
    rewrite !append_assoc.
    destruct (os_Create w _); [reflexivity|].
    destruct (Post_Generate md p tmpl) as [out err]. reflexivity.
  - apply month_two_digits.
  - intros Hy. apply year_four_digits, Hy.
Qed.

(** The post [hello.md] of July 2023 goes to [out/2023/07/hello.html]. *)
Lemma post_output_path_witness :
  generatePosts_loop (fun x => x)
    (posts_world ["hello.md"%string] (inl body_template)) src_out
    "src/posts" body_template [file_named "hello.md"] [] =
  (Return None,
   [EvMkdirAll "out/2023/07" 493; EvCreate "out/2023/07/hello.html";
    EvWrite "out/2023/07/hello.html"
      (list_byte_of_string "<body># Hi</body>")]).
Proof.
  destruct (post_output_path (fun x => x)
              (posts_world ["hello.md"%string] (inl body_template)) src_out
              "src/posts" body_template (file_named "hello.md") [] []
              {| content := list_byte_of_string "# Hi";
                 pubdate := july_2023;
                 destFileName := "hello.html";
                 format := MARKDOWN;
                 fileInfo := file_named "hello.md" |}
              eq_refl eq_refl ltac:(discriminate)) as [H _].
  rewrite H. reflexivity.
Defined.

(** C5, as stated, fails: the year 999 is rendered with three digits. *)
Lemma year_not_always_four_digits :
  dateParts post_of_year_999 = ("999"%string, "07"%string) /\
  digit_string 4 (fst (dateParts post_of_year_999)) = false.
Proof. split; reflexivity. Qed.

(** ** The post pass *)

(** The error of [Post.Generate] has no influence on the post pass: a
    template that fails behaves as one that writes the same bytes and
    succeeds. *)
Lemma render_error_unread (md : list Byte.byte -> list Byte.byte) (w : World)
    (s : Site) (postsDir : string) (tmpl : Template)
    (entries : list FileInfo) :
  forall disk,
    generatePosts_loop md w s postsDir tmpl entries disk =
    generatePosts_loop md w s postsDir (without_errors tmpl) entries disk.
Proof.
  induction entries as [|e rest IH]; intros disk; cbn [generatePosts_loop].
  - reflexivity.
  - destruct (HasPrefix (Name e) "."); [apply IH|].
    destruct (NewPostFromPath w _) as [[p|err]|v]; try reflexivity.
    destruct (dateParts p) as [year month].
    destruct (os_Create w _); [reflexivity|].
    unfold Post_Generate, without_errors. cbn [Execute].
    destruct (Execute tmpl _) as [out err]. cbn [fst]. apply IH.
Qed.

(** C1, on the code: with the posts [a.md] and [b.md] and a template whose
    execution fails, [Site.Generate] returns nil, and [b.md] is rendered
    after the failure on [a.md]. *)
Theorem render_error_is_dropped :
  Site_Generate (fun x => x)
    (posts_world ["a.md"; "b.md"]%string (inl failing_template))
    (site_tree ["a.md"; "b.md"]%string) src_out =
  (Return None,
   [EvMkdirAll "out/2023/07" 493; EvCreate "out/2023/07/a.html";
    EvWrite "out/2023/07/a.html" (list_byte_of_string "<body>");
    EvMkdirAll "out/2023/07" 493; EvCreate "out/2023/07/b.html";
    EvWrite "out/2023/07/b.html" (list_byte_of_string "<body>")]).
Proof. vm_compute. reflexivity. Qed.

(** C7, as stated, fails: when [src/posts] is a regular file, [exists] is
    satisfied and [Site.Generate] returns the error of reading it as a
    directory, not the missing-directories error. *)
Lemma posts_file_passes_exists :
  IsDir (file_named "posts") = false /\
  Stat posts_is_a_file "src/posts" = inl (file_named "posts") /\
  fst (Site_Generate (fun x => x) posts_is_a_file posts_is_a_file_tree src_out)
    = Return (Some (PathError "open" "src/posts" ENOTDIR)) /\
  PathError "open" "src/posts" ENOTDIR <> missing_dirs.
Proof. repeat split; try reflexivity. discriminate. Qed.

(** C7 (amended): when the tree copy has succeeded and [Stat] reports that
    [source/posts] or [source/templates] does not exist, [Site.Generate]
    returns the missing-directories error, and the disk holds what the tree
    copy wrote: nothing of any post. *)
Theorem missing_directory (md : list Byte.byte -> list Byte.byte) (w : World)
    (t : node) (s : Site) (disk : list fs_event) (trace : list call) :
  copyTree s t [] = (None, disk, trace) ->
  Stat w (filepath_Join [Source s; "posts"%string]) = inr ENOENT \/
  Stat w (filepath_Join [Source s; "templates"%string]) = inr ENOENT ->
  Site_Generate md w t s = (Return (Some missing_dirs), disk).
Proof.
  intros Hc Hm. unfold Site_Generate. rewrite Hc.
  unfold generatePosts, exists_, os_Stat.
  destruct Hm as [-> | ->]; cbn [IsNotExist negb orb].
  - reflexivity.
  - now rewrite orb_true_r.
Qed.

(** A source tree without a templates directory. *)
Lemma missing_directory_witness :
  Site_Generate (fun x => x) no_templates no_templates_tree src_out =
    (Return (Some missing_dirs), []).
Proof.
  apply (missing_directory (fun x => x) no_templates no_templates_tree
           src_out []
           [{| call_path := "src"; call_err := None; call_ret := None |};
            {| call_path := "src/posts"; call_err := None;
               call_ret := Some SkipDir |}]).
  - reflexivity.
  - right. reflexivity.
Defined.

(** C8, as stated, fails: with a template that does not parse,
    [Site.Generate] returns nothing to its caller, it panics. *)
Lemma parse_error_panics :
  fst (Site_Generate (fun x => x)
         (posts_world ["hello.md"%string] (inr parse_error))
         (site_tree ["hello.md"%string]) src_out)
    = Panic (PanicError parse_error) /\
  forall err : option error,
    fst (Site_Generate (fun x => x)
           (posts_world ["hello.md"%string] (inr parse_error))
           (site_tree ["hello.md"%string]) src_out) <> Return err.
Proof. split; [reflexivity | discriminate]. Qed.

(** C8 (amended): when the tree copy has succeeded, both directories exist
    and [templates/default.html] does not parse, [Site.Generate] panics with
    the parse error ([template.Must]); the disk holds what the tree copy
    wrote: nothing of any post. *)
Theorem malformed_template_panics (md : list Byte.byte -> list Byte.byte)
    (w : World) (t : node) (s : Site) (disk : list fs_event)
    (trace : list call) (err : error) :
  copyTree s t [] = (None, disk, trace) ->
  exists_ w (filepath_Join [Source s; "posts"%string]) = true ->
  exists_ w (filepath_Join [Source s; "templates"%string]) = true ->
  ParseFiles w (filepath_Join [filepath_Join [Source s; "templates"%string];
                               "default.html"%string]) = inr err ->
  Site_Generate md w t s = (Panic (PanicError err), disk).
Proof.
  intros Hc Hp Ht He. unfold Site_Generate. rewrite Hc.
  unfold generatePosts. rewrite Hp, Ht, He. reflexivity.
Qed.

(** A site whose template has an unclosed action. *)
Lemma malformed_template_panics_witness :
  Site_Generate (fun x => x)
    (posts_world ["hello.md"%string] (inr parse_error))
    (site_tree ["hello.md"%string]) src_out =
  (Panic (PanicError parse_error), []).
Proof.
  apply (malformed_template_panics (fun x => x)
           (posts_world ["hello.md"%string] (inr parse_error))
           (site_tree ["hello.md"%string]) src_out []
           [{| call_path := "src"; call_err := None; call_ret := None |};
            {| call_path := "src/posts"; call_err := None;
               call_ret := Some SkipDir |};
            {| call_path := "src/templates"; call_err := None;
               call_ret := Some SkipDir |}]);
    reflexivity.
Defined.

(** ** The tree copy: failures *)

Lemma path_error_not_SkipDir (op path : string) (e : option Errno) :
  path_error op path e <> Some SkipDir.
Proof. destruct e; discriminate. Qed.

Lemma is_failure_path_error (op path : string) (e : option Errno) :
  is_failure (path_error op path e) =
    match e with Some _ => true | None => false end.
Proof. destruct e; reflexivity. Qed.

(** [copyFile] fails exactly when one of its four steps does, the first
    failing step giving the error. *)
Lemma copyFile_error (io : copy_io) (mode : Z) (src dst : string)
    (disk : list fs_event) :
  snd (fst (copyFile io mode src dst disk)) =
    match io_open io, io_create io, io_stat io, snd (io_copy io) with
    | Some e, _, _, _ => Some (PathError "open" src e)
    | None, Some e, _, _ => Some (PathError "open" dst e)
    | None, None, Some e, _ => Some (PathError "stat" src e)
    | None, None, None, Some e => Some (PathError "copy" dst e)
    | None, None, None, None => None
    end.
Proof.
  unfold copyFile.
  destruct (io_open io), (io_create io), (io_stat io),
    (io_copy io) as [data [errno|]]; reflexivity.
Qed.

Lemma copyFile_not_SkipDir (io : copy_io) (mode : Z) (src dst : string)
    (disk : list fs_event) :
  snd (fst (copyFile io mode src dst disk)) <> Some SkipDir.
Proof.
  rewrite copyFile_error.
  destruct (io_open io), (io_create io), (io_stat io), (snd (io_copy io));
    discriminate.
Qed.

(** The walk function clears [ok] exactly when it reports a failure. *)
Lemma copyTree_fn_ok (s : Site) (path : string) (n : node)
    (err : option error) (st : copy_state) :
  err <> Some SkipDir ->
  ok (fst (copyTree_fn s path n err st)) =
    if is_failure (snd (copyTree_fn s path n err st)) then false else ok st.
Proof.
  intros Hs. unfold copyTree_fn.
  destruct err as [e|].
  - destruct e; try reflexivity. congruence.
  - destruct (IsDir (node_info n) && _); [reflexivity|].
    assert (Hrel : forall e, filepath_Rel (Source s) path = inr e ->
                             is_failure (Some e) = true).
    { unfold filepath_Rel. intros e.
      destruct (decide (path = Source s)); [discriminate|].
      destruct (HasPrefix path _); [discriminate|]. now intros [= <-]. }
    destruct (filepath_Rel (Source s) path) as [rel|e].
    2:{ cbn [fst snd ok]. now rewrite (Hrel e eq_refl). }
    clear Hrel.
    destruct (HasPrefix rel "." || Contains rel "/."); [reflexivity|].
    destruct n as [st0 io|st0 rd es]; [|reflexivity].
    pose proof (copyFile_not_SkipDir io (Mode (node_info (File st0 io))) path
                  (filepath_Join [Dest s; rel]) (disk st)) as Hc.
    destruct (copyFile io _ path _ (disk st)) as [[wr [e|]] d]; cbn in *.
    + destruct e; try reflexivity. congruence.
    + reflexivity.
Qed.

(** The walk function returns the error it is handed. *)
Lemma copyTree_fn_err (s : Site) (path : string) (n : node) (e : error)
    (st : copy_state) :
  snd (copyTree_fn s path n (Some e) st) = Some e.
Proof. reflexivity. Qed.

(** The equations of the walk. *)
Lemma walk_Dir {St : Type}
    (fn : string -> node -> option error -> St -> St * option error)
    (path : string) (st : lstat_info) (rd : option Errno) (es : nodes)
    (x : St * list call) :
  walk fn path (Dir st rd es) x =
    let err := path_error "open" path rd in
    let '(x1, err1) := invoke fn path (Dir st rd es) err x in
    match err, err1 with
    | None, None => walk_names fn path es x1
    | _, _ => (x1, err1)
    end.
Proof. reflexivity. Qed.

Lemma walk_names_more {St : Type}
    (fn : string -> node -> option error -> St -> St * option error)
    (path : string) (e : node) (rest : nodes) (x : St * list call) :
  walk_names fn path (more_nodes e rest) x =
    let filename := filepath_Join [path; st_name (node_stat e)] in
    match path_error "lstat" filename (st_lstat (node_stat e)) with
    | Some err =>
        let '(x', r) := invoke fn filename e (Some err) x in
        match r with
        | Some e' =>
            if decide (e' = SkipDir) then walk_names fn path rest x'
            else (x', r)
        | None => walk_names fn path rest x'
        end
    | None =>
        let '(x', r) := walk fn filename e x in
        match r with
        | Some e' =>
            if negb (node_IsDir e) || negb (bool_decide (e' = SkipDir))
            then (x', r)
            else walk_names fn path rest x'
        | None => walk_names fn path rest x'
        end
    end.
Proof. reflexivity. Qed.

Section CopyWalk.

Variable s : Site.

Lemma steps_refl (x : copy_state * list call) : steps x x None.
Proof.
  exists []. split; [now rewrite app_nil_r|]. split; [constructor|].
  cbn. split; [reflexivity|constructor].
Qed.

Lemma steps_trans (x x1 x2 : copy_state * list call) (r1 r2 : option error) :
  is_failure r1 = false -> steps x x1 r1 -> steps x1 x2 r2 -> steps x x2 r2.
Proof.
  intros Hr (c1 & E1 & S1 & H1) (c2 & E2 & S2 & H2). rewrite Hr in H1.
  destruct H1 as [Hok1 Hf1].
  exists (c1 ++ c2). split; [now rewrite E2, E1, app_assoc|].
  split; [apply Forall_app; split; assumption|].
  destruct (is_failure r2).
  - destruct H2 as (Hok2 & pre & c & -> & Hc & Hpre).
    split; [exact Hok2|]. exists (c1 ++ pre), c.
    split; [now rewrite app_assoc|]. split; [exact Hc|].
    apply Forall_app. split; assumption.
  - destruct H2 as [Hok2 Hf2]. split; [congruence|].
    apply Forall_app. split; assumption.
Qed.

Lemma invoke_steps (path : string) (n : node) (err : option error)
    (x x' : copy_state * list call) (r : option error) :
  err <> Some SkipDir ->
  invoke (copyTree_fn s) path n err x = (x', r) ->
  steps x x' r.
Proof.
  intros Hs. unfold invoke.
  pose proof (copyTree_fn_ok s path n err (fst x) Hs) as Hok.
  assert (He : forall e, err = Some e ->
                 snd (copyTree_fn s path n err (fst x)) = Some e)
    by (intros e ->; apply copyTree_fn_err).
  destruct (copyTree_fn s path n err (fst x)) as [st r0].
  cbn [fst snd] in Hok, He. intros [= <- <-].
  exists [{| call_path := path; call_err := err; call_ret := r0 |}].
  split; [reflexivity|]. cbn [fst snd]. split.
  - constructor; [|constructor]. intros e Ee. cbn [call_err] in Ee.
    unfold failed. cbn [call_ret]. rewrite (He e Ee).
    split; [reflexivity|]. destruct e; try reflexivity. congruence.
  - destruct (is_failure r0) eqn:E.
    + split; [exact Hok|].
      exists [], {| call_path := path; call_err := err; call_ret := r0 |}.
      split; [reflexivity|]. split; [exact E | constructor].
    + split; [exact Hok|]. constructor; [exact E | constructor].
Qed.

Lemma invoke_failure (path : string) (n : node) (e : error)
    (x x' : copy_state * list call) (r : option error) :
  invoke (copyTree_fn s) path n (Some e) x = (x', r) -> r = Some e.
Proof.
  unfold invoke. pose proof (copyTree_fn_err s path n e (fst x)) as H.
  destruct (copyTree_fn s path n (Some e) (fst x)) as [st r0].
  cbn [snd] in H. intros [= <- <-]. exact H.
Qed.

Lemma walk_steps :
  (forall n path x x' r,
     walk (copyTree_fn s) path n x = (x', r) -> steps x x' r) /\
  (forall ns path x x' r,
     walk_names (copyTree_fn s) path ns x = (x', r) -> steps x x' r).
Proof.
  apply node_nodes_ind.
  - intros st io path x x' r H. cbn [walk] in H.
    apply (invoke_steps path (File st io) None); [discriminate | exact H].
  - intros st rd es IH path x x' r H. rewrite walk_Dir in H. cbv zeta in H.
    destruct (invoke (copyTree_fn s) path (Dir st rd es)
                (path_error "open" path rd) x) as [x1 err1] eqn:Ei.
    pose proof (invoke_steps _ _ _ _ _ _ (path_error_not_SkipDir _ _ _) Ei)
      as H1.
    destruct (path_error "open" path rd) as [e|] eqn:Ep.
    + injection H as <- <-. exact H1.
    + destruct err1 as [e1|].
      * injection H as <- <-. exact H1.
      * apply (steps_trans x x1 x' None r eq_refl H1). apply (IH _ _ _ _ H).
  - intros path x x' r [= <- <-]. apply steps_refl.
  - intros e IHe rest IHrest path x x' r H.
    rewrite walk_names_more in H. cbv zeta in H.
    set (filename := filepath_Join [path; st_name (node_stat e)]) in *.
    destruct (path_error "lstat" filename (st_lstat (node_stat e)))
      as [err|] eqn:Ep.
    + destruct (invoke (copyTree_fn s) filename e (Some err) x)
        as [x1 r1] eqn:Ei.
      assert (Hne : Some err <> Some SkipDir)
        by (rewrite <- Ep; apply path_error_not_SkipDir).
      pose proof (invoke_steps _ _ _ _ _ _ Hne Ei) as H1.
      pose proof (invoke_failure _ _ _ _ _ _ Ei) as ->.
      cbv beta iota in H.
      destruct (decide (err = SkipDir)) as [->|Hd]; [congruence|].
      assert (x1 = x' /\ Some err = r) as [<- <-] by (split; congruence).
      exact H1.
    + destruct (walk (copyTree_fn s) filename e x) as [x1 r1] eqn:Ew.
      pose proof (IHe _ _ _ _ Ew) as H1.
      destruct r1 as [e1|]; cbv beta iota in H.
      * destruct (negb (node_IsDir e) || negb (bool_decide (e1 = SkipDir)))
          eqn:Eb.
        -- injection H as <- <-. exact H1.
        -- apply orb_false_iff in Eb as [_ Eb].
           apply negb_false_iff, bool_decide_eq_true in Eb. subst e1.
           apply (steps_trans x x1 x' (Some SkipDir) r eq_refl H1).
           apply (IHrest _ _ _ _ H).
      * apply (steps_trans x x1 x' None r eq_refl H1).
        apply (IHrest _ _ _ _ H).
Qed.


End CopyWalk.



(** ** The tree copy: hidden entries and reserved directories *)

Lemma HasPrefix_nil (s : string) : HasPrefix s EmptyString = true.
Proof. destruct s; reflexivity. Qed.

Lemma HasPrefix_cons (c d : ascii) (s p : string) :
  HasPrefix (String d s) (String c p) =
    if decide (c = d) then HasPrefix s p else false.
Proof. reflexivity. Qed.

Lemma Contains_cons (c : ascii) (s sub : string) :
  Contains (String c s) sub = HasPrefix (String c s) sub || Contains s sub.
Proof. reflexivity. Qed.

Lemma no_slash_cons (c : ascii) (s : string) :
  Contains (String c s) "/" = false ->
  c <> "/"%char /\ Contains s "/" = false.
Proof.
  rewrite Contains_cons, HasPrefix_cons, HasPrefix_nil.
  intros H. apply orb_false_iff in H as [H1 H2]. split; [|exact H2].
  destruct (decide ("/"%char = c)); [discriminate | congruence].
Qed.

Lemma segments_cons_other (c : ascii) (s : string) :
  c <> "/"%char ->
  segments (String c s) =
    match segments s with
    | seg :: rest => String c seg :: rest
    | [] => [String c EmptyString]
    end.
Proof.
  intros H. cbn [segments]. destruct (decide (c = "/"%char)); [contradiction|].
  reflexivity.
Qed.

(** A string without separator is its only segment. *)
Lemma segments_no_slash (a : string) :
  Contains a "/" = false -> segments a = [a].
Proof.
  induction a as [|c a IH]; intros H; [reflexivity|].
  apply no_slash_cons in H as [Hc Ha].
  now rewrite (segments_cons_other c a Hc), (IH Ha).
Qed.

Lemma segments_app_slash (a b : string) :
  Contains a "/" = false ->
  segments (a +:+ "/" +:+ b) = a :: segments b.
Proof.
  induction a as [|c a IH]; intros H.
  - rewrite append_nil, append_cons, append_nil. cbn [segments].
    destruct (decide ("/"%char = "/"%char)); [reflexivity | congruence].
  - apply no_slash_cons in H as [Hc Ha]. rewrite append_cons.
    now rewrite (segments_cons_other c _ Hc), (IH Ha).
Qed.

Lemma name_ok_spec (name : string) :
  name_ok name = true -> name <> EmptyString /\ Contains name "/" = false.
Proof.
  unfold name_ok. intros H. apply andb_true_iff in H as [H1 H2].
  apply negb_true_iff in H1, H2. apply bool_decide_eq_false in H1.
  split; assumption.
Qed.

Lemma strings_Join_cons (e e' : string) (rest : list string) (sep : string) :
  strings_Join (e :: e' :: rest) sep =
    e +:+ sep +:+ strings_Join (e' :: rest) sep.
Proof. reflexivity. Qed.

(** The segments of joined names are the names. *)
Lemma segments_Join (names : list string) :
  names <> [] ->
  Forall (fun name => name_ok name = true) names ->
  segments (strings_Join names "/") = names.
Proof.
  induction names as [|e [|e' rest] IH]; intros Hne HF; [congruence| |].
  - apply Forall_cons_1 in HF as [He _]. apply name_ok_spec in He as [_ He].
    exact (segments_no_slash e He).
  - apply Forall_cons_1 in HF as [He HF]. apply name_ok_spec in He as [_ He].
    rewrite strings_Join_cons, (segments_app_slash _ _ He).
    f_equal. apply IH; [discriminate | exact HF].
Qed.

Lemma strings_Join_snoc (names : list string) (name : string) :
  names <> [] ->
  strings_Join (names ++ [name]) "/" =
    strings_Join names "/" +:+ "/" +:+ name.
Proof.
  induction names as [|e [|e' rest] IH]; intros Hne; [congruence| |].
  - reflexivity.
  - change ((e :: e' :: rest) ++ [name]) with (e :: e' :: (rest ++ [name])).
    rewrite !strings_Join_cons.
    change (e' :: rest ++ [name]) with ((e' :: rest) ++ [name]).
    rewrite IH by discriminate. now rewrite !append_assoc.
Qed.

Lemma strings_Join_nonempty (names : list string) :
  names <> [] ->
  Forall (fun name => name_ok name = true) names ->
  exists c rest, strings_Join names "/" = String c rest /\ c <> "/"%char.
Proof.
  destruct names as [|e names]; intros Hne HF; [congruence|].
  apply Forall_cons_1 in HF as [He _]. apply name_ok_spec in He as [He1 He2].
  destruct e as [|c e]; [congruence|].
  apply no_slash_cons in He2 as [Hc _].
  destruct names as [|e' rest].
  - exists c, e. split; [reflexivity | exact Hc].
  - rewrite strings_Join_cons, append_cons. eexists c, _.
    split; [reflexivity | exact Hc].
Qed.

(** No segment is hidden when the relative path passes the filter of
    [copyTree]: it does not start with ['.'] and has no ["/."]. *)
Lemma segments_not_hidden (rel : string) :
  Contains rel "/." = false ->
  exists seg rest,
    segments rel = seg :: rest /\
    HasPrefix seg "." = HasPrefix rel "." /\
    Forall (fun seg => hidden seg = false) rest.
Proof.
  induction rel as [|c rel IH]; intros H.
  - exists EmptyString, []. repeat split. constructor.
  - rewrite Contains_cons in H. apply orb_false_iff in H as [Hh Ht].
    destruct (IH Ht) as (seg & rest & Es & Ep & HF).
    destruct (decide (c = "/"%char)) as [->|Hc].
    + exists EmptyString, (seg :: rest). split; [|split].
      * cbn [segments]. rewrite Es.
        destruct (decide ("/"%char = "/"%char)); [reflexivity | congruence].
      * rewrite HasPrefix_cons.
        destruct (decide ("."%char = "/"%char)); [discriminate | reflexivity].
      * constructor; [|exact HF]. unfold hidden. rewrite Ep.
        rewrite HasPrefix_cons in Hh.
        destruct (decide ("/"%char = "/"%char)); [exact Hh | congruence].
    + exists (String c seg), rest. split; [|split].
      * now rewrite (segments_cons_other c rel Hc), Es.
      * rewrite !HasPrefix_cons, !HasPrefix_nil. reflexivity.
      * exact HF.
Qed.

Lemma filter_passed (rel : string) :
  HasPrefix rel "." || Contains rel "/." = false ->
  Forall (fun seg => hidden seg = false) (segments rel).
Proof.
  intros H. apply orb_false_iff in H as [H1 H2].
  destruct (segments_not_hidden rel H2) as (seg & rest & -> & Ep & HF).
  constructor; [|exact HF]. unfold hidden. now rewrite Ep.
Qed.

Lemma walk_path_nonempty (src : string) (names : list string) :
  names <> [] ->
  Forall (fun name => name_ok name = true) names ->
  walk_path src names <> EmptyString.
Proof.
  intros Hne HF.
  destruct (strings_Join_nonempty names Hne HF) as (c & rest & E & _).
  destruct names as [|n ns]; [congruence|]. unfold walk_path.
  destruct (decide (src = EmptyString)).
  - rewrite E. discriminate.
  - apply append_nonempty_l. assumption.
Qed.

(** The walk names an entry by joining the path of its directory and its
    name. *)
Lemma walk_path_snoc (src : string) (names : list string) (name : string) :
  Forall (fun name => name_ok name = true) names ->
  name_ok name = true ->
  filepath_Join [walk_path src names; name] = walk_path src (names ++ [name]).
Proof.
  intros HF Hn. apply name_ok_spec in Hn as [Hn _].
  destruct names as [|n ns].
  - cbn [walk_path app]. unfold filepath_Join.
    destruct (decide (src = EmptyString)) as [->|Hs].
    + rewrite filter_cons_False by (intros H; now apply H).
      rewrite filter_cons_True by exact Hn. reflexivity.
    + rewrite filter_cons_True by exact Hs.
      rewrite filter_cons_True by exact Hn. reflexivity.
  - rewrite filepath_Join_2;
      [|apply walk_path_nonempty; [discriminate | exact HF] | exact Hn].
    change ((n :: ns) ++ [name]) with (n :: (ns ++ [name])).
    unfold walk_path.
    change (n :: ns ++ [name]) with ((n :: ns) ++ [name]).
    rewrite strings_Join_snoc by discriminate.
    destruct (decide (src = EmptyString)); [reflexivity|].
    now rewrite !append_assoc.
Qed.

(** [filepath.Rel] undoes the joins of the walk. *)
Lemma Rel_walk_path (src : string) (names : list string) (rel : string) :
  Forall (fun name => name_ok name = true) names ->
  filepath_Rel src (walk_path src names) = inl rel ->
  match names with
  | [] => rel = "."%string
  | _ :: _ => rel = strings_Join names "/"
  end.
Proof.
  intros HF. unfold filepath_Rel.
  destruct names as [|n ns].
  - cbn [walk_path]. destruct (decide (src = src)); [|congruence].
    now intros [= <-].
  - destruct (strings_Join_nonempty (n :: ns) ltac:(discriminate) HF)
      as (c & rest & E & Hc).
    unfold walk_path. destruct (decide (src = EmptyString)) as [->|Hs].
    + rewrite E. destruct (decide (String c rest = EmptyString));
        [discriminate|].
      rewrite append_nil, HasPrefix_cons.
      destruct (decide ("/"%char = c)); [congruence | discriminate].
    + destruct (decide (src +:+ "/" +:+ strings_Join (n :: ns) "/" = src))
        as [Heq|_].
      * apply (f_equal String.length) in Heq. rewrite !length_app in Heq.
        simpl in Heq. lia.
      * rewrite <- append_assoc, HasPrefix_app.
        replace (String.length src + 1)%nat
          with (String.length (src +:+ "/"))
          by (rewrite length_app; reflexivity).
        rewrite str_drop_app. now intros [= <-].
Qed.

(** What [copyFile] adds to the disk acts on the destination name. *)
Lemma copyFile_disk (io : copy_io) (mode : Z) (src dst : string)
    (disk : list fs_event) :
  exists evs,
    snd (copyFile io mode src dst disk) = disk ++ evs /\
    Forall (fun ev => event_path ev = dst /\ is_mkdir ev = false) evs.
Proof.
  unfold copyFile.
  destruct (path_error "open" src (io_open io));
    [exists []; split; [now rewrite app_nil_r | constructor]|].
  destruct (path_error "open" dst (io_create io));
    [exists []; split; [now rewrite app_nil_r | constructor]|].
  destruct (path_error "stat" src (io_stat io)).
  - exists [EvCreate dst]. split; [reflexivity|]. repeat constructor.
  - destruct (io_copy io) as [data e].
    exists [EvCreate dst; EvChmod dst mode; EvWrite dst data].
    split; [now rewrite <- !app_assoc|]. repeat constructor.
Qed.

Lemma Forall_removelast_last {A : Type} (P : A -> Prop) (l : list A) (d : A) :
  Forall P (removelast l) -> (l <> [] -> P (List.last l d)) -> Forall P l.
Proof.
  intros H1 H2. destruct l as [|a l]; [constructor|].
  rewrite (app_removelast_last d (l := a :: l)) by discriminate.
  apply Forall_app. split; [exact H1|].
  constructor; [apply H2; discriminate | constructor].
Qed.

Section CleanCopy.

Variable s : Site.

(** One call of the walk function keeps the disk clean, when the call is
    for the entry reached through [names], whose ancestors are not
    reserved. *)
Lemma copyTree_fn_clean (names : list string) (n : node)
    (err : option error) (st : copy_state) :
  Forall (fun name => name_ok name = true) names ->
  Forall (fun name => reserved name = false) (removelast names) ->
  (names <> [] -> List.last names EmptyString = st_name (node_stat n)) ->
  Forall (clean_event s) (disk st) ->
  Forall (clean_event s)
    (disk (fst (copyTree_fn s (walk_path (Source s) names) n err st))).
Proof.
  intros Hok Hres Hlast Hd. unfold copyTree_fn.
  destruct err as [e|]; [exact Hd|].
  destruct (IsDir (node_info n) && _) eqn:Er; [exact Hd|].
  destruct (filepath_Rel (Source s) (walk_path (Source s) names))
    as [rel|e] eqn:Erel; [|exact Hd].
  destruct (HasPrefix rel "." || Contains rel "/.") eqn:Ef; [exact Hd|].
  pose proof (Rel_walk_path _ _ _ Hok Erel) as Hrel.
  destruct names as [|n0 ns]; [subst rel; discriminate|].
  pose proof (filter_passed rel Ef) as Hh.
  assert (Hseg : segments rel = n0 :: ns)
    by (rewrite Hrel; apply segments_Join; [discriminate | exact Hok]).
  rewrite Hseg in Hh.
  destruct n as [st0 io|st0 rd es].
  - destruct (copyFile_disk io (Mode (node_info (File st0 io)))
                (walk_path (Source s) (n0 :: ns))
                (filepath_Join [Dest s; rel]) (disk st)) as (evs & E & HF).
    assert (Hc : Forall (clean_event s) (disk st ++ evs)).
    { apply Forall_app. split; [exact Hd|].
      eapply Forall_impl; [exact HF|]. intros ev [Hp Hm].
      exists rel. rewrite Hseg. repeat split; try assumption.
      rewrite Hm. discriminate. }
    destruct (copyFile io _ _ _ (disk st)) as [[wr [e|]] d];
      cbn [fst snd disk] in *; now rewrite E.
  - cbn [fst disk]. apply Forall_app. split; [exact Hd|].
    constructor; [|constructor].
    exists rel. rewrite Hseg. repeat split; try assumption.
    intros _. apply (Forall_removelast_last _ _ EmptyString Hres).
    intros _. rewrite (Hlast ltac:(discriminate)).
    cbn [node_info IsDir Name andb] in Er. exact Er.
Qed.

Lemma invoke_clean (names : list string) (n : node) (err : option error)
    (x x' : copy_state * list call) (r : option error) :
  Forall (fun name => name_ok name = true) names ->
  Forall (fun name => reserved name = false) (removelast names) ->
  (names <> [] -> List.last names EmptyString = st_name (node_stat n)) ->
  invoke (copyTree_fn s) (walk_path (Source s) names) n err x = (x', r) ->
  Forall (clean_event s) (disk (fst x)) ->
  Forall (clean_event s) (disk (fst x')).
Proof.
  intros Hok Hres Hlast Hi Hd. unfold invoke in Hi.
  pose proof (copyTree_fn_clean names n err (fst x) Hok Hres Hlast Hd) as H.
  destruct (copyTree_fn s _ n err (fst x)) as [st r0].
  injection Hi as <- <-. exact H.
Qed.

(** The walk function lets the walk enter a directory only when its name
    is not reserved. *)
Lemma invoke_enters (path : string) (st : lstat_info) (rd : option Errno)
    (es : nodes) (x x' : copy_state * list call) :
  invoke (copyTree_fn s) path (Dir st rd es) None x = (x', None) ->
  reserved (st_name st) = false.
Proof.
  unfold invoke, copyTree_fn. cbn [node_info IsDir Name node_stat andb].
  fold (reserved (st_name st)).
  destruct (reserved (st_name st)); [|reflexivity]. discriminate.
Qed.

End CleanCopy.

Section CleanWalk.

Variable s : Site.

(** The walk keeps the disk clean: below a directory reached through
    unreserved names, and at an entry whose ancestors are unreserved. *)
Lemma walk_clean :
  (forall n names x x' r,
     wf_node n = true ->
     ok_names names -> free (removelast names) ->
     (names <> [] -> List.last names EmptyString = st_name (node_stat n)) ->
     walk (copyTree_fn s) (walk_path (Source s) names) n x = (x', r) ->
     Forall (clean_event s) (disk (fst x)) ->
     Forall (clean_event s) (disk (fst x'))) /\
  (forall ns names x x' r,
     wf_nodes ns = true ->
     ok_names names -> free names ->
     walk_names (copyTree_fn s) (walk_path (Source s) names) ns x = (x', r) ->
     Forall (clean_event s) (disk (fst x)) ->
     Forall (clean_event s) (disk (fst x'))).
Proof.
  apply node_nodes_ind.
  - intros st io names x x' r _ Hok Hres Hlast H Hd.
    exact (invoke_clean s names _ None x x' r Hok Hres Hlast H Hd).
  - intros st rd es IH names x x' r Hwf Hok Hres Hlast H Hd.
    rewrite walk_Dir in H. cbv zeta in H.
    destruct (invoke (copyTree_fn s) (walk_path (Source s) names)
                (Dir st rd es)
                (path_error "open" (walk_path (Source s) names) rd) x)
      as [x1 err1] eqn:Ei.
    pose proof (invoke_clean s names _ _ x x1 err1 Hok Hres Hlast Ei Hd) as H1.
    destruct (path_error "open" (walk_path (Source s) names) rd) as [e|].
    + injection H as <- <-. exact H1.
    + destruct err1 as [e1|].
      * injection H as <- <-. exact H1.
      * apply (IH names x1 x' r Hwf Hok); [|exact H|exact H1].
        apply (Forall_removelast_last _ _ EmptyString Hres).
        intros Hne. rewrite (Hlast Hne).
        exact (invoke_enters s _ _ _ _ _ _ Ei).
  - intros names x x' r _ _ _ [= <- <-] Hd. exact Hd.
  - intros e IHe rest IHrest names x x' r Hwf Hok Hfree H Hd.
    cbn [wf_nodes] in Hwf. apply andb_true_iff in Hwf as [Hwf Hwr].
    apply andb_true_iff in Hwf as [Hn Hwe].
    rewrite walk_names_more in H. cbv zeta in H.
    rewrite (walk_path_snoc _ _ _ Hok Hn) in H.
    set (names' := names ++ [st_name (node_stat e)]) in *.
    assert (Hok' : ok_names names')
      by (apply Forall_app; split; [exact Hok | repeat constructor; exact Hn]).
    assert (Hres' : free (removelast names'))
      by (unfold names'; rewrite removelast_last; exact Hfree).
    assert (Hlast' : names' <> [] ->
                     List.last names' EmptyString = st_name (node_stat e))
      by (intros _; unfold names'; apply last_last).
    destruct (path_error "lstat" (walk_path (Source s) names')
                (st_lstat (node_stat e))) as [err|].
    + destruct (invoke (copyTree_fn s) (walk_path (Source s) names') e
                  (Some err) x) as [x1 r1] eqn:Ei.
      pose proof (invoke_clean s names' _ _ x x1 r1 Hok' Hres' Hlast' Ei Hd)
        as H1.
      destruct r1 as [e1|]; cbv beta iota in H.
      * destruct (decide (e1 = SkipDir)).
        -- exact (IHrest names x1 x' r Hwr Hok Hfree H H1).
        -- injection H as <- <-. exact H1.
      * exact (IHrest names x1 x' r Hwr Hok Hfree H H1).
    + destruct (walk (copyTree_fn s) (walk_path (Source s) names') e x)
        as [x1 r1] eqn:Ew.
      pose proof (IHe names' x x1 r1 Hwe Hok' Hres' Hlast' Ew Hd) as H1.
      destruct r1 as [e1|]; cbv beta iota in H.
      * destruct (negb (node_IsDir e) || negb (bool_decide (e1 = SkipDir))).
        -- injection H as <- <-. exact H1.
        -- exact (IHrest names x1 x' r Hwr Hok Hfree H H1).
      * exact (IHrest names x1 x' r Hwr Hok Hfree H H1).
Qed.

End CleanWalk.

(** C4: for every source tree (its entries named as a directory listing
    names them), every destination file or directory that the tree copy
    makes or writes is [dest/rel] for a source-relative path [rel] without
    hidden segment and without reserved directory above it, at any depth;
    and no directory with a reserved name is made. *)
Theorem copy_skips_hidden_and_reserved (s : Site) (t : node) (ev : fs_event) :
  wf_node t = true ->
  ev ∈ copy_disk (copyTree s t []) ->
  clean_event s ev.
Proof.
  intros Hwf Hin.
  assert (HF : Forall (clean_event s) (copy_disk (copyTree s t []))).
  { unfold copyTree, filepath_Walk.
    change (Source s) with (walk_path (Source s) []).
    set (st0 := {| ok := true; disk := [] |}).
    assert (Hd0 : Forall (clean_event s) (disk (fst (st0, @nil call))))
      by constructor.
    destruct (path_error "lstat" (walk_path (Source s) [])
                (st_lstat (node_stat t))) as [e|].
    - destruct (invoke (copyTree_fn s) (walk_path (Source s) []) t (Some e)
                  (st0, [])) as [[st tr] r] eqn:Ei.
      pose proof (invoke_clean s [] t _ _ _ _ ltac:(constructor)
                    ltac:(constructor) ltac:(congruence) Ei Hd0) as H.
      cbn [fst] in H.
      destruct r as [e1|]; [destruct (decide (e1 = SkipDir))|];
        destruct (negb (ok st)); exact H.
    - destruct (walk (copyTree_fn s) (walk_path (Source s) []) t (st0, []))
        as [[st tr] r] eqn:Ew.
      pose proof (proj1 (walk_clean s) t [] _ _ _ Hwf ltac:(constructor)
                    ltac:(constructor) ltac:(congruence) Ew Hd0) as H.
      cbn [fst] in H.
      destruct r as [e1|]; [destruct (decide (e1 = SkipDir))|];
        destruct (negb (ok st)); exact H. }
  rewrite Forall_forall in HF. exact (HF ev Hin).
Qed.

(** In the mixed tree, the copy of [images/logo.png] is such an event. *)
Lemma copy_skips_hidden_and_reserved_witness :
  clean_event src_out (EvCreate "out/images/logo.png").
Proof.
  apply (copy_skips_hidden_and_reserved src_out mixed_tree).
  - reflexivity.
  - vm_compute. apply list_elem_of_In. simpl. tauto.
Defined.

(** ** Scenarios *)

Example LastIndex_examples :
  LastIndex "foo.bar.md" "." = 7 /\ LastIndex "README" "." = -1 /\
  LastIndex ".md" "." = 0 /\ LastIndex "a." "." = 1.
Proof. repeat split. Qed.

Example Sprintf_examples :
  Sprintf_d 2023 = "2023"%string /\ Sprintf_d 0 = "0"%string /\
  Sprintf_d (-44) = "-44"%string /\ Sprintf_d 10000 = "10000"%string /\
  Sprintf_0d 2 7 = "07"%string /\ Sprintf_0d 2 12 = "12"%string /\
  Sprintf_0d 2 (-5) = "-5"%string /\ Sprintf_0d 3 (-5) = "-05"%string.
Proof. repeat split. Qed.

(** The logo is copied, the post is rendered below [out/2023/07]. *)
Example generate_hello :
  Site_Generate (fun _ => list_byte_of_string "<h1>Hi</h1>")
    (posts_world ["hello.md"%string] (inl body_template)) hello_tree src_out =
  (Return None,
   [EvMkdir "out/images" 493;
    EvCreate "out/images/logo.png"; EvChmod "out/images/logo.png" 420;
    EvWrite "out/images/logo.png" (list_byte_of_string "data");
    EvMkdirAll "out/2023/07" 493; EvCreate "out/2023/07/hello.html";
    EvWrite "out/2023/07/hello.html"
      (list_byte_of_string "<body><h1>Hi</h1></body>")]).
Proof. vm_compute. reflexivity. Qed.

(** A post with an unregistered extension stops the run; the post before it
    stays on disk. *)
Example generate_note_xyz :
  Site_Generate (fun x => x)
    (posts_world ["hello.html"; "note.xyz"]%string (inl body_template))
    (site_tree ["hello.html"; "note.xyz"]%string) src_out =
  (Return (Some (errors_New "unknown format xyz")),
   [EvMkdirAll "out/2023/07" 493; EvCreate "out/2023/07/hello.html";
    EvWrite "out/2023/07/hello.html"
      (list_byte_of_string "<body># Hi</body>")]).
Proof. vm_compute. reflexivity. Qed.

(** Neither [.gitignore] nor [sub/.hidden/file.txt] reaches the
    destination, nor anything of a [posts] or [templates] directory. *)
Example copy_mixed_tree :
  copy_error (copyTree src_out mixed_tree []) = None /\
  copy_disk (copyTree src_out mixed_tree []) =
    [EvMkdir "out/images" 493;
     EvCreate "out/images/logo.png"; EvChmod "out/images/logo.png" 420;
     EvWrite "out/images/logo.png" (list_byte_of_string "data");
     EvCreate "out/index.html"; EvChmod "out/index.html" 420;
     EvWrite "out/index.html" (list_byte_of_string "data");
     EvMkdir "out/sub" 493].
Proof. split; vm_compute; reflexivity. Qed.

(** * Further properties *)

(** ** Post discovery *)

(** What a returned post tells about the file. *)
Lemma NewPostFromPath_inv (w : World) (path : string) (p : Post) :
  NewPostFromPath w path = Return (inl p) ->
  exists fi data pre ext f,
    Stat w path = inl fi /\ ReadFile w path = inl data /\
    Name fi = pre +:+ "." +:+ ext /\ no_dot ext /\
    formats !! ext = Some f /\
    p = {| content := data; pubdate := ModTime fi;
           destFileName := pre +:+ ".html"; format := f; fileInfo := fi |}.
Proof.
  intros H.
  destruct (Stat w path) as [fi|e] eqn:HS.
  2:{ unfold NewPostFromPath, os_Stat in H. rewrite HS in H. discriminate. }
  destruct (ReadFile w path) as [data|e] eqn:HR.
  2:{ unfold NewPostFromPath, os_Stat, ioutil_ReadFile in H.
      rewrite HS, HR in H. discriminate. }
  destruct (Contains (Name fi) ".") eqn:HC.
  - destruct (Contains_dot_split _ HC) as (pre & ext & HN & Hd).
    rewrite (NewPostFromPath_dot w path fi data pre ext HS HR HN Hd) in H.
    destruct (formats !! ext) as [f|] eqn:Hf; [|discriminate].
    injection H as <-. exists fi, data, pre, ext, f. repeat split; assumption.
  - rewrite (NewPostFromPath_no_dot w path fi data HS HR HC) in H.
    discriminate.
Qed.

(** The failures of [NewPostFromPath]: a path error or the unknown-format
    error when it returns, the slice-bounds error when it panics. *)
Lemma NewPostFromPath_failures (w : World) (path : string) :
  match NewPostFromPath w path with
  | Return (inl _) => True
  | Return (inr e) =>
      (exists op errno, e = PathError op path errno) \/
      (exists ext, e = errors_New ("unknown format " +:+ ext))
  | Panic v => v = slice_bounds
  end.
Proof.
  unfold NewPostFromPath, os_Stat, ioutil_ReadFile.
  destruct (Stat w path) as [fi|e]; [|left; eauto].
  destruct (ReadFile w path) as [data|e]; [|left; eauto].
  unfold slice_to, slice_from.
  set (idx := LastIndex (Name fi) ".").
  destruct ((0 <=? idx) && (idx <=? len (Name fi)));
    cbn [mbind go_bind]; [|reflexivity].
  destruct ((0 <=? idx + 1) && (idx + 1 <=? len (Name fi)));
    cbn [mbind go_bind]; [|reflexivity].
  destruct (formats !! _); [exact I|]. right. eauto.
Qed.

(** X1: [NewPostFromPath] returns a post exactly when the file can be
    stat'ed and read, its name splits at a last ['.'] into a stem and a
    registered extension; the post then holds the bytes read, the
    modification time, the stem followed by [.html] and the format of the
    extension. *)
Theorem NewPostFromPath_post_iff (w : World) (path : string) (p : Post) :
  NewPostFromPath w path = Return (inl p) <->
  exists fi data pre ext f,
    Stat w path = inl fi /\ ReadFile w path = inl data /\
    Name fi = pre +:+ "." +:+ ext /\ no_dot ext /\
    formats !! ext = Some f /\
    p = {| content := data; pubdate := ModTime fi;
           destFileName := pre +:+ ".html"; format := f; fileInfo := fi |}.
Proof.
  split; [apply NewPostFromPath_inv|].
  intros (fi & data & pre & ext & f & HS & HR & HN & Hd & Hf & ->).
  rewrite (NewPostFromPath_dot w path fi data pre ext HS HR HN Hd), Hf.
  reflexivity.
Qed.

(** X2: the outcomes of [NewPostFromPath], in the order in which the code
    reaches them: the error of [Stat]; else the error of reading; else, for
    a name without ['.'], the slice-bounds panic; else the post or the
    unknown-format error. A file that cannot be stat'ed or read never
    panics, whatever its name. *)
Theorem NewPostFromPath_outcomes (w : World) (path : string) :
  match Stat w path, ReadFile w path with
  | inr e, _ => NewPostFromPath w path = Return (inr (PathError "stat" path e))
  | inl _, inr e =>
      NewPostFromPath w path = Return (inr (PathError "open" path e))
  | inl fi, inl data =>
      if Contains (Name fi) "." then
        exists pre ext,
          Name fi = pre +:+ "." +:+ ext /\ no_dot ext /\
          NewPostFromPath w path =
            match formats !! ext with
            | Some f =>
                Return (inl {| content := data; pubdate := ModTime fi;
                               destFileName := pre +:+ ".html";
                               format := f; fileInfo := fi |})
            | None => Return (inr (errors_New ("unknown format " +:+ ext)))
            end
      else NewPostFromPath w path = Panic slice_bounds
  end.
Proof.
  destruct (Stat w path) as [fi|e] eqn:HS.
  - destruct (ReadFile w path) as [data|e] eqn:HR.
    + destruct (Contains (Name fi) ".") eqn:HC.
      * destruct (Contains_dot_split _ HC) as (pre & ext & HN & Hd).
        exists pre, ext. split; [exact HN|]. split; [exact Hd|].
        exact (NewPostFromPath_dot w path fi data pre ext HS HR HN Hd).
      * exact (NewPostFromPath_no_dot w path fi data HS HR HC).
    + unfold NewPostFromPath, os_Stat, ioutil_ReadFile. now rewrite HS, HR.
  - unfold NewPostFromPath, os_Stat. now rewrite HS.
Qed.

(** Only the key [html] of the table gives HTML. *)
Lemma formats_HTML (ext : string) :
  formats !! ext = Some HTML -> ext = "html"%string.
Proof.
  unfold formats. intros H.
  destruct (decide (ext = "txt"%string)) as [->|H1];
    [rewrite lookup_insert_eq in H; discriminate|].
  rewrite lookup_insert_ne in H by congruence.
  destruct (decide (ext = "md"%string)) as [->|H2];
    [rewrite lookup_insert_eq in H; discriminate|].
  rewrite lookup_insert_ne in H by congruence.
  destruct (decide (ext = "html"%string)) as [->|H3]; [reflexivity|].
  rewrite lookup_insert_ne, lookup_empty in H by congruence. discriminate.
Qed.

(** X3: a post of the HTML format keeps the name of its source file: the
    extension that is cut and the extension that is put are both [html]. *)
Theorem html_post_keeps_name (w : World) (path : string) (p : Post) :
  NewPostFromPath w path = Return (inl p) ->
  format p = HTML ->
  destFileName p = Name (fileInfo p).
Proof.
  intros H Hf. apply NewPostFromPath_inv in H
    as (fi & data & pre & ext & f & _ & _ & HN & _ & He & ->).
  cbn [format] in Hf. subst f. apply formats_HTML in He. subst ext.
  cbn [destFileName fileInfo]. now rewrite HN.
Qed.

Lemma html_post_keeps_name_witness :
  exists p,
    NewPostFromPath (posts_world ["about.html"%string] (inl body_template))
                    "src/posts/about.html" = Return (inl p) /\
    destFileName p = "about.html"%string.
Proof.
  eexists. split; [reflexivity|].
  apply (html_post_keeps_name
           (posts_world ["about.html"%string] (inl body_template))
           "src/posts/about.html"); reflexivity.
Defined.

(** X4: the name of the output depends on the stem alone: two posts whose
    source names differ only in the extension get the same [destFileName],
    and with the same year and month the same output path, so that the
    later one overwrites the earlier. *)
Theorem same_stem_same_output (w : World) (s : Site) (path1 path2 : string)
    (p1 p2 : Post) (pre ext1 ext2 : string) :
  NewPostFromPath w path1 = Return (inl p1) ->
  NewPostFromPath w path2 = Return (inl p2) ->
  Name (fileInfo p1) = pre +:+ "." +:+ ext1 -> no_dot ext1 ->
  Name (fileInfo p2) = pre +:+ "." +:+ ext2 -> no_dot ext2 ->
  destFileName p1 = destFileName p2 /\
  (dateParts p1 = dateParts p2 -> post_dest s p1 = post_dest s p2).
Proof.
  intros H1 H2 N1 D1 N2 D2.
  assert (E : forall path p ext,
            NewPostFromPath w path = Return (inl p) ->
            Name (fileInfo p) = pre +:+ "." +:+ ext -> no_dot ext ->
            destFileName p = pre +:+ ".html").
  { intros path p ext H N D.
    pose proof H as H'. apply NewPostFromPath_inv in H'
      as (fi & data & pre' & ext' & f & HS & HR & _ & _ & _ & ->).
    cbn [fileInfo] in N.
    rewrite (NewPostFromPath_dot w path fi data pre ext HS HR N D) in H.
    destruct (formats !! ext); [|discriminate].
    injection H as <-. reflexivity. }
  rewrite (E _ _ _ H1 N1 D1), (E _ _ _ H2 N2 D2).
  split; [reflexivity|]. intros Hd. unfold post_dest.
  now rewrite (E _ _ _ H1 N1 D1), (E _ _ _ H2 N2 D2), Hd.
Qed.

(** The posts [a.md] and [a.txt] of the same month share their output. *)
Lemma same_stem_same_output_witness :
  post_dest src_out (post_a "a.md") = post_dest src_out (post_a "a.txt").
Proof.
  destruct (same_stem_same_output
              (posts_world ["a.md"; "a.txt"]%string (inl body_template))
              src_out "src/posts/a.md" "src/posts/a.txt"
              (post_a "a.md") (post_a "a.txt") "a" "md" "txt"
              eq_refl eq_refl eq_refl eq_refl eq_refl eq_refl) as [_ H].
  exact (H eq_refl).
Defined.

(** ** Dates *)

Lemma Atoi_Sprintf_d (v : Z) : Atoi (Sprintf_d v) = Some v.
Proof.
  unfold Atoi, Sprintf_d. rewrite NilZero.isi.
  - cbn [option_map]. now rewrite DecimalZ.of_to.
  - destruct v as [|p|p]; try discriminate.
    cbn. intros [= H]. exact (DecimalPos.Unsigned.to_uint_nonnil p H).
  - destruct v as [|p|p]; try discriminate.
    cbn. intros [= H]. exact (DecimalPos.Unsigned.to_uint_nonnil p H).
Qed.

(** X5: the two strings of [dateParts] read back as the year and the month
    number of [pubdate]; posts of different years or months therefore
    never share a directory. *)
Theorem dateParts_round_trip (p q : Post) :
  Atoi (fst (dateParts p)) = Some (Year (pubdate p)) /\
  Atoi (snd (dateParts p)) = Some (Month_int (Month (pubdate p))) /\
  (dateParts p = dateParts q ->
   Year (pubdate p) = Year (pubdate q) /\
   Month (pubdate p) = Month (pubdate q)).
Proof.
  assert (Hm : forall m, Atoi (Sprintf_0d 2 (Month_int m)) = Some (Month_int m))
    by (intros m; destruct m; reflexivity).
  assert (Hi : forall m m', Month_int m = Month_int m' -> m = m')
    by (intros m m'; destruct m, m'; (reflexivity || discriminate)).
  split; [apply Atoi_Sprintf_d | split; [apply Hm|]].
  unfold dateParts. intros [= Hy Hmo].
  apply (f_equal Atoi) in Hy, Hmo.
  rewrite !Atoi_Sprintf_d in Hy. rewrite !Hm in Hmo.
  injection Hy as Hy. injection Hmo as Hmo.
  split; [exact Hy | exact (Hi _ _ Hmo)].
Qed.

(** ** Sites *)

(** X6: [NewSite] never leaves a path empty: an empty source becomes [.],
    an empty destination [./_site], any other argument is kept; applying it
    to the paths of a site it built changes nothing. *)
Theorem NewSite_defaults (source dest : string) :
  let s := NewSite source dest in
  Source s <> EmptyString /\ Dest s <> EmptyString /\
  (source <> EmptyString -> Source s = source) /\
  (dest <> EmptyString -> Dest s = dest) /\
  (source = EmptyString -> Source s = "."%string) /\
  (dest = EmptyString -> Dest s = "./_site"%string) /\
  NewSite (Source s) (Dest s) = s.
Proof.
  cbv zeta. unfold NewSite. cbn [Source Dest].
  destruct (decide (source = EmptyString)) as [->|Hs],
           (decide (dest = EmptyString)) as [->|Hd];
    repeat split; try congruence; try discriminate;
    repeat (match goal with
            | |- context [decide (?a = ?b)] => destruct (decide (a = b))
            end); congruence.
Qed.

(** ** The post pass, entry by entry *)

Section PostPass.

Variable md : list Byte.byte -> list Byte.byte.
Variable w : World.
Variable s : Site.
Variable postsDir : string.
Variable tmpl : Template.

(** One round of the loop on an entry that is not hidden and is discovered
    as [p]. *)
Lemma generatePosts_loop_step (e : FileInfo) (rest : list FileInfo)
    (disk : list fs_event) (p : Post) :
  Dest s <> EmptyString ->
  HasPrefix (Name e) "." = false ->
  NewPostFromPath w (entry_path postsDir e) = Return (inl p) ->
  generatePosts_loop md w s postsDir tmpl (e :: rest) disk =
    match os_Create w (post_dest s p) with
    | Some err => (Return (Some err), disk ++ [EvMkdirAll (post_dir s p) 493])
    | None =>
        generatePosts_loop md w s postsDir tmpl rest
          (disk ++ post_events md s tmpl p)
    end.
Proof.
  intros Hd Hh Hp. unfold entry_path in Hp.
  destruct (NewPostFromPath_destFileName w _ p Hp) as [base Hbase].
  assert (Hn : destFileName p <> EmptyString)
    by (rewrite Hbase; apply append_nonempty_r; discriminate).
  cbn [generatePosts_loop]. rewrite Hh, Hp.
  unfold dateParts at 1.
  rewrite (filepath_Join_3 (Dest s) _ _ Hd (Sprintf_d_nonempty _)
             (month_nonempty _)).
  rewrite filepath_Join_2; [|apply append_nonempty_l; exact Hd | exact Hn].
  unfold post_events, post_dest, post_dir, dateParts. cbn [fst snd].
  rewrite !append_assoc.
  destruct (os_Create w _); [reflexivity|].
  destruct (Post_Generate md p tmpl) as [out err]. cbn [fst].
  now rewrite <- !app_assoc.
Qed.

Lemma generatePosts_loop_hidden (e : FileInfo) (rest : list FileInfo)
    (disk : list fs_event) :
  HasPrefix (Name e) "." = true ->
  generatePosts_loop md w s postsDir tmpl (e :: rest) disk =
  generatePosts_loop md w s postsDir tmpl rest disk.
Proof. intros H. cbn [generatePosts_loop]. now rewrite H. Qed.

(** The failures of the loop. *)
Lemma generatePosts_loop_failures (entries : list FileInfo) :
  forall disk,
    match fst (generatePosts_loop md w s postsDir tmpl entries disk) with
    | Return None => True
    | Return (Some e) =>
        (exists op path errno, e = PathError op path errno) \/
        (exists ext, e = errors_New ("unknown format " +:+ ext))
    | Panic v => v = slice_bounds
    end.
Proof.
  induction entries as [|e rest IH]; intros disk; cbn [generatePosts_loop].
  - exact I.
  - destruct (HasPrefix (Name e) "."); [apply IH|].
    pose proof (NewPostFromPath_failures w
                  (filepath_Join [postsDir; Name e])) as Hf.
    destruct (NewPostFromPath w _) as [[p|err]|v]; cbn [fst].
    + destruct (dateParts p) as [year month].
      unfold os_Create. destruct (Create w _) as [errno|]; cbn [fst].
      * left. eauto.
      * destruct (Post_Generate md p tmpl) as [out err]. apply IH.
    + destruct Hf as [(op & errno & ->)|Hf]; [left; eauto | right; exact Hf].
    + exact Hf.
Qed.

End PostPass.

(** X7: the post pass over a listing in two parts is the pass over the
    first part, followed, when that returned nil, by the pass over the
    second part on the disk it left; an error or a panic in the first part
    is the result, with the posts before it on disk. *)
Theorem generatePosts_loop_app (md : list Byte.byte -> list Byte.byte)
    (w : World) (s : Site) (postsDir : string) (tmpl : Template)
    (l1 l2 : list FileInfo) (disk : list fs_event) :
  generatePosts_loop md w s postsDir tmpl (l1 ++ l2) disk =
    let '(r, d) := generatePosts_loop md w s postsDir tmpl l1 disk in
    match r with
    | Return None => generatePosts_loop md w s postsDir tmpl l2 d
    | _ => (r, d)
    end.
Proof.
  revert disk. induction l1 as [|e l1 IH]; intros disk.
  - reflexivity.
  - change ((e :: l1) ++ l2) with (e :: (l1 ++ l2)).
    cbn [generatePosts_loop].
    destruct (HasPrefix (Name e) "."); [apply IH|].
    destruct (NewPostFromPath w _) as [[p|err]|v]; try reflexivity.
    destruct (dateParts p) as [year month].
    destruct (os_Create w _); [reflexivity|].
    destruct (Post_Generate md p tmpl) as [out err]. apply IH.
Qed.

(** X8: entries whose name starts with ['.'] take no part in the post pass:
    the pass over a listing is the pass over its other entries, whatever
    the hidden ones are (unreadable, without extension, of unknown
    format). *)
Theorem generatePosts_loop_shown (md : list Byte.byte -> list Byte.byte)
    (w : World) (s : Site) (postsDir : string) (tmpl : Template)
    (entries : list FileInfo) (disk : list fs_event) :
  generatePosts_loop md w s postsDir tmpl entries disk =
  generatePosts_loop md w s postsDir tmpl (shown entries) disk.
Proof.
  revert disk. unfold shown.
  induction entries as [|e rest IH]; intros disk; [reflexivity|].
  destruct (HasPrefix (Name e) ".") eqn:Hh.
  - rewrite filter_cons_False by (rewrite Hh; discriminate).
    rewrite generatePosts_loop_hidden by exact Hh. apply IH.
  - rewrite filter_cons_True by exact Hh.
    cbn [generatePosts_loop]. rewrite Hh.
    destruct (NewPostFromPath w _) as [[p|err]|v]; try reflexivity.
    destruct (dateParts p) as [year month].
    destruct (os_Create w _); [reflexivity|].
    destruct (Post_Generate md p tmpl) as [out err]. apply IH.
Qed.

(** What a post pass that returned nil did. *)
Lemma generatePosts_loop_nil (md : list Byte.byte -> list Byte.byte)
    (w : World) (s : Site) (postsDir : string) (tmpl : Template)
    (entries : list FileInfo) :
  Dest s <> EmptyString ->
  forall disk disk',
    generatePosts_loop md w s postsDir tmpl entries disk
      = (Return None, disk') ->
    exists posts,
      Forall2 (rendered w s postsDir) (shown entries) posts /\
      disk' = disk ++ concat (map (post_events md s tmpl) posts).
Proof.
  intros Hd. unfold shown.
  induction entries as [|e rest IH]; intros disk disk' H.
  - cbn [generatePosts_loop] in H. injection H as <-.
    exists []. split; [constructor | now rewrite app_nil_r].
  - destruct (HasPrefix (Name e) ".") eqn:Hh.
    + rewrite filter_cons_False by (rewrite Hh; discriminate).
      rewrite generatePosts_loop_hidden in H by exact Hh. exact (IH _ _ H).
    + rewrite filter_cons_True by exact Hh.
      destruct (NewPostFromPath w (entry_path postsDir e))
        as [[p|err]|v] eqn:Hp.
      2,3: cbn [generatePosts_loop] in H; unfold entry_path in Hp;
           rewrite Hh, Hp in H; discriminate.
      rewrite (generatePosts_loop_step md w s postsDir tmpl e rest disk p
                 Hd Hh Hp) in H.
      destruct (os_Create w (post_dest s p)) eqn:Hc; [discriminate|].
      apply IH in H as (posts & HF & ->).
      exists (p :: posts). split.
      * constructor; [split; assumption | exact HF].
      * cbn [map concat]. now rewrite <- !app_assoc.
Qed.

(** X9: the post pass returns nil exactly when every entry that is not
    hidden is discovered as a post whose file can be created; the disk then
    gains, in the order of the listing, the directory, the file and the
    rendering of each of these posts, and nothing else. *)
Theorem generatePosts_loop_success (md : list Byte.byte -> list Byte.byte)
    (w : World) (s : Site) (postsDir : string) (tmpl : Template)
    (entries : list FileInfo) (disk disk' : list fs_event) :
  Dest s <> EmptyString ->
  generatePosts_loop md w s postsDir tmpl entries disk = (Return None, disk')
  <->
  exists posts,
    Forall2 (rendered w s postsDir) (shown entries) posts /\
    disk' = disk ++ concat (map (post_events md s tmpl) posts).
Proof.
  intros Hd. split; [apply generatePosts_loop_nil; exact Hd|].
  unfold shown. revert disk.
  induction entries as [|e rest IH]; intros disk.
  - intros (posts & HF & ->). inversion HF; subst. cbn.
    now rewrite app_nil_r.
  - destruct (HasPrefix (Name e) ".") eqn:Hh.
    + rewrite filter_cons_False by (rewrite Hh; discriminate).
      rewrite generatePosts_loop_hidden by exact Hh. apply IH.
    + rewrite filter_cons_True by exact Hh.
      intros (posts & HF & ->).
      inversion HF as [|e0 p l posts' [Hp Hc] HF']; subst.
      rewrite (generatePosts_loop_step md w s postsDir tmpl e rest disk p
                 Hd Hh Hp), Hc.
      apply IH. exists posts'. split; [exact HF'|].
      cbn [map concat]. now rewrite <- !app_assoc.
Qed.

(** The listing [a.md], [.draft], [b.html]: two posts on disk. *)
Lemma generatePosts_loop_success_witness :
  generatePosts_loop (fun x => x)
    (posts_world ["a.md"; ".draft"; "b.html"]%string (inl body_template))
    src_out "src/posts" body_template listing_with_hidden [] =
  (Return None,
   [EvMkdirAll "out/2023/07" 493; EvCreate "out/2023/07/a.html";
    EvWrite "out/2023/07/a.html" (list_byte_of_string "<body># Hi</body>");
    EvMkdirAll "out/2023/07" 493; EvCreate "out/2023/07/b.html";
    EvWrite "out/2023/07/b.html" (list_byte_of_string "<body># Hi</body>")]).
Proof.
  apply (generatePosts_loop_success (fun x => x)
           (posts_world ["a.md"; ".draft"; "b.html"]%string
              (inl body_template))
           src_out "src/posts" body_template listing_with_hidden []).
  - discriminate.
  - exists [post_a "a.md";
            {| content := list_byte_of_string "# Hi"; pubdate := july_2023;
               destFileName := "b.html"; format := HTML;
               fileInfo := file_named "b.html" |}].
    split; [|reflexivity].
    repeat constructor.
Defined.

(** ** The errors of a run *)

Lemma exists_false (w : World) (path : string) :
  exists_ w path = false <-> Stat w path = inr ENOENT.
Proof.
  unfold exists_, os_Stat. destruct (Stat w path) as [fi|e].
  - split; discriminate.
  - destruct e; cbn; split; (discriminate || reflexivity || congruence).
Qed.

Lemma unknown_format_not_missing_dirs (ext : string) :
  errors_New ("unknown format " +:+ ext) <> missing_dirs.
Proof.
  unfold errors_New, missing_dirs. rewrite append_cons. discriminate.
Qed.

(** [copyTree] returns nil or its one aggregate error. *)
Lemma copyTree_error_cases (s : Site) (t : node) (disk0 : list fs_event) :
  copy_error (copyTree s t disk0) = None \/
  copy_error (copyTree s t disk0) = Some copy_errors.
Proof.
  unfold copyTree.
  destruct (filepath_Walk (copyTree_fn s) (Source s) t _) as [[st tr] r].
  destruct (negb (ok st)); [right | left]; reflexivity.
Qed.

(** The failures of [generatePosts]. *)
Lemma generatePosts_failures (md : list Byte.byte -> list Byte.byte)
    (w : World) (s : Site) (disk : list fs_event) :
  match fst (generatePosts md w s disk) with
  | Return None => True
  | Return (Some e) =>
      e = missing_dirs \/
      (exists op path errno, e = PathError op path errno) \/
      (exists ext, e = errors_New ("unknown format " +:+ ext))
  | Panic v =>
      v = slice_bounds \/
      exists err,
        ParseFiles w (filepath_Join
                        [filepath_Join [Source s; "templates"%string];
                         "default.html"%string]) = inr err /\
        v = PanicError err
  end.
Proof.
  unfold generatePosts.
  destruct (negb (exists_ w _) || negb (exists_ w _)); [left; reflexivity|].
  destruct (ParseFiles w _) as [tmpl|err] eqn:Ep; cbn [template_Must].
  2:{ right. exists err. split; reflexivity. }
  unfold ioutil_ReadDir. destruct (ReadDir w _) as [entries|errno].
  2:{ right. left. eauto. }
  pose proof (generatePosts_loop_failures md w s
                (filepath_Join [Source s; "posts"%string]) tmpl entries disk)
    as H.
  destruct (fst (generatePosts_loop md w s _ tmpl entries disk))
    as [[e|]|v]; [right; exact H | exact I | left; exact H].
Qed.

(** X10: whatever the world and the source tree, an error that
    [Site.Generate] returns is the aggregate copy error, the
    missing-directories error, a path error or an unknown-format error; a
    panic is the slice-bounds error or carries the error of parsing the
    template. It never returns an error of the template engine, nor
    [SkipDir]. *)
Theorem Site_Generate_errors (md : list Byte.byte -> list Byte.byte)
    (w : World) (t : node) (s : Site) :
  match fst (Site_Generate md w t s) with
  | Return None => True
  | Return (Some e) => returned_error e
  | Panic v =>
      v = slice_bounds \/
      exists err,
        ParseFiles w (filepath_Join
                        [filepath_Join [Source s; "templates"%string];
                         "default.html"%string]) = inr err /\
        v = PanicError err
  end /\
  (forall msg,
     fst (Site_Generate md w t s) <> Return (Some (TemplateError msg))) /\
  fst (Site_Generate md w t s) <> Return (Some SkipDir).
Proof.
  assert (H : match fst (Site_Generate md w t s) with
              | Return None => True
              | Return (Some e) => returned_error e
              | Panic v =>
                  v = slice_bounds \/
                  exists err,
                    ParseFiles w
                      (filepath_Join
                         [filepath_Join [Source s; "templates"%string];
                          "default.html"%string]) = inr err /\
                    v = PanicError err
              end).
  { unfold Site_Generate.
    pose proof (copyTree_error_cases s t []) as Hc. unfold copy_error in Hc.
    destruct (copyTree s t []) as [[err disk] tr]. cbn [fst] in Hc.
    destruct Hc as [-> | ->].
    - pose proof (generatePosts_failures md w s disk) as Hg.
      destruct (fst (generatePosts md w s disk)) as [[e|]|v];
        [|exact I|exact Hg].
      unfold returned_error. tauto.
    - left. reflexivity. }
  split; [exact H|].
  assert (Hno : forall e, returned_error e ->
                  e <> SkipDir /\ forall msg, e <> TemplateError msg).
  { intros e [-> | [-> | [(op & p & errno & ->) | (ext & ->)]]];
      split; try discriminate; intros msg; discriminate. }
  split.
  - intros msg E. rewrite E in H. exact (proj2 (Hno _ H) msg eq_refl).
  - intros E. rewrite E in H. exact (proj1 (Hno _ H) eq_refl).
Qed.

(** X11: [generatePosts] returns the missing-directories error exactly when
    [Stat] reports that [source/posts] or [source/templates] does not
    exist; a path that cannot be stat'ed for another reason counts as
    existing. *)
Theorem missing_dirs_iff (md : list Byte.byte -> list Byte.byte) (w : World)
    (s : Site) (disk : list fs_event) :
  fst (generatePosts md w s disk) = Return (Some missing_dirs) <->
  Stat w (filepath_Join [Source s; "posts"%string]) = inr ENOENT \/
  Stat w (filepath_Join [Source s; "templates"%string]) = inr ENOENT.
Proof.
  rewrite <- !exists_false. unfold generatePosts.
  destruct (exists_ w (filepath_Join [Source s; "posts"%string])) eqn:E1;
    [|split; [intros _; left; reflexivity | reflexivity]].
  destruct (exists_ w (filepath_Join [Source s; "templates"%string])) eqn:E2;
    [|split; [intros _; right; reflexivity | reflexivity]].
  cbn [negb orb]. split; [|intros [H|H]; discriminate].
  intros H. exfalso.
  destruct (ParseFiles w _) as [tmpl|err]; cbn [template_Must] in H;
    [|discriminate].
  unfold ioutil_ReadDir in H. destruct (ReadDir w _) as [entries|errno];
    [|discriminate].
  pose proof (generatePosts_loop_failures md w s
                (filepath_Join [Source s; "posts"%string]) tmpl entries disk)
    as Hf.
  rewrite H in Hf. destruct Hf as [(op & p & errno & Hf)|(ext & Hf)].
  - discriminate.
  - symmetry in Hf. exact (unknown_format_not_missing_dirs ext Hf).
Qed.

(** ** The tree copy: what a copy without failure leaves *)

Lemma no_slash_no_slash_dot (a : string) :
  Contains a "/" = false -> Contains a "/." = false.
Proof.
  induction a as [|c a IH]; intros H; [reflexivity|].
  apply no_slash_cons in H as [Hc Ha].
  rewrite Contains_cons, HasPrefix_cons, (IH Ha).
  destruct (decide ("/"%char = c)); [congruence | reflexivity].
Qed.

Lemma Contains_app_no_slash (a rest : string) :
  Contains a "/" = false ->
  Contains (a +:+ rest) "/." = Contains rest "/.".
Proof.
  induction a as [|c a IH]; intros H; [now rewrite append_nil|].
  apply no_slash_cons in H as [Hc Ha].
  rewrite append_cons, Contains_cons, HasPrefix_cons, (IH Ha).
  destruct (decide ("/"%char = c)); [congruence | reflexivity].
Qed.

Lemma HasPrefix_Join_dot (n : string) (ns : list string) :
  name_ok n = true ->
  HasPrefix (strings_Join (n :: ns) "/") "." = hidden n.
Proof.
  intros Hn. apply name_ok_spec in Hn as [Hn _]. unfold hidden.
  destruct ns as [|n2 rest]; [reflexivity|].
  rewrite strings_Join_cons. destruct n as [|c n]; [congruence|].
  rewrite append_cons, !HasPrefix_cons, !HasPrefix_nil. reflexivity.
Qed.

(** The filter of [copyTree] on the relative path of an entry tells
    whether a name on the way to it is hidden. *)
Lemma filter_Join (names : list string) :
  names <> [] -> ok_names names ->
  HasPrefix (strings_Join names "/") "." ||
  Contains (strings_Join names "/") "/." = existsb hidden names.
Proof.
  induction names as [|n [|n2 rest] IH]; intros Hne Hok; [congruence| |].
  - apply Forall_cons_1 in Hok as [Hn _].
    rewrite (HasPrefix_Join_dot n [] Hn).
    apply name_ok_spec in Hn as [_ Hn].
    cbn [strings_Join existsb]. now rewrite (no_slash_no_slash_dot n Hn).
  - apply Forall_cons_1 in Hok as [Hn Hok].
    rewrite (HasPrefix_Join_dot n (n2 :: rest) Hn).
    pose proof (name_ok_spec n Hn) as [_ Hn'].
    rewrite strings_Join_cons, (Contains_app_no_slash n _ Hn').
    rewrite append_cons, append_nil, Contains_cons, HasPrefix_cons.
    destruct (decide ("/"%char = "/"%char)); [|congruence].
    rewrite (IH ltac:(discriminate) Hok). reflexivity.
Qed.

(** A copy without error leaves the file, its mode and its bytes. *)
Lemma copyFile_success (io : copy_io) (mode : Z) (src dst : string)
    (disk : list fs_event) :
  snd (fst (copyFile io mode src dst disk)) = None ->
  snd (copyFile io mode src dst disk) =
    disk ++ [EvCreate dst; EvChmod dst mode; EvWrite dst (fst (io_copy io))].
Proof.
  unfold copyFile.
  destruct (io_open io); [discriminate|].
  destruct (io_create io); [discriminate|].
  destruct (io_stat io); [discriminate|]. cbn [path_error].
  destruct (io_copy io) as [data e]. cbn [fst snd]. intros _.
  now rewrite <- !app_assoc.
Qed.

Section CopiedWalk.

Variable s : Site.

(** One call of the walk function that does not fail: its events, and its
    result, [SkipDir] exactly for a directory with a reserved name. *)
Lemma copyTree_fn_events (names : list string) (n : node) (st : copy_state) :
  ok_names names ->
  is_failure (snd (copyTree_fn s (walk_path (Source s) names) n None st))
    = false ->
  disk (fst (copyTree_fn s (walk_path (Source s) names) n None st)) =
    disk st ++ visit_events s names n /\
  snd (copyTree_fn s (walk_path (Source s) names) n None st) =
    if node_IsDir n && reserved (st_name (node_stat n))
    then Some SkipDir else None.
Proof.
  intros Hok. unfold copyTree_fn.
  cbn [node_info IsDir Name Mode]. fold (reserved (st_name (node_stat n))).
  destruct (node_IsDir n && reserved (st_name (node_stat n))) eqn:Er.
  - intros _. split; [|reflexivity]. cbn [fst].
    destruct n as [st0 io|st0 rd es]; [discriminate|].
    cbn [node_IsDir node_stat andb] in Er. cbn [visit_events].
    rewrite Er. now rewrite app_nil_r.
  - assert (Hres : forall st0 rd es, n = Dir st0 rd es ->
                     reserved (st_name st0) = false)
      by (intros st0 rd es ->; exact Er).
    assert (Hrel : forall e, filepath_Rel (Source s)
                               (walk_path (Source s) names) = inr e ->
                             is_failure (Some e) = true).
    { unfold filepath_Rel. intros e.
      destruct (decide (_ = Source s)); [discriminate|].
      destruct (HasPrefix _ _); [discriminate|]. now intros [= <-]. }
    destruct (filepath_Rel (Source s) (walk_path (Source s) names))
      as [rel|e] eqn:Erel.
    2:{ cbn [snd]. rewrite (Hrel e eq_refl). discriminate. }
    pose proof (Rel_walk_path _ _ _ Hok Erel) as Hr.
    destruct names as [|n0 ns].
    + subst rel. cbn [HasPrefix orb]. intros _. split; [|reflexivity].
      cbn [fst]. destruct n as [st0 io|st0 rd es]; cbn [visit_events].
      * now rewrite app_nil_r.
      * rewrite (Hres _ _ _ eq_refl). now rewrite app_nil_r.
    + subst rel. rewrite (filter_Join (n0 :: ns) ltac:(discriminate) Hok).
      unfold visible.
      destruct (existsb hidden (n0 :: ns)) eqn:Eh; cbn [negb].
      * intros _. split; [|reflexivity]. cbn [fst].
        destruct n as [st0 io|st0 rd es]; cbn [visit_events].
        -- unfold visible. rewrite Eh. now rewrite app_nil_r.
        -- rewrite (Hres _ _ _ eq_refl). unfold visible. rewrite Eh.
           now rewrite app_nil_r.
      * destruct n as [st0 io|st0 rd es]; cbn [visit_events].
        -- unfold visible. rewrite Eh. cbn [negb].
           pose proof (copyFile_success io (st_mode (node_stat (File st0 io)))
                         (walk_path (Source s) (n0 :: ns))
                         (filepath_Join [Dest s; strings_Join (n0 :: ns) "/"])
                         (disk st)) as Hs.
           pose proof (copyFile_not_SkipDir io
                         (st_mode (node_stat (File st0 io)))
                         (walk_path (Source s) (n0 :: ns))
                         (filepath_Join [Dest s; strings_Join (n0 :: ns) "/"])
                         (disk st)) as Hn.
           destruct (copyFile io _ _ _ (disk st)) as [[wr [e|]] d];
             cbn [fst snd] in *.
           ++ intros Hf. destruct e; try discriminate. congruence.
           ++ intros _. split; [exact (Hs eq_refl) | reflexivity].
        -- rewrite (Hres _ _ _ eq_refl). unfold visible. rewrite Eh.
           intros _. split; reflexivity.
Qed.

(** The same for a call recorded by the walk. *)
Lemma invoke_events (names : list string) (n : node)
    (x x' : copy_state * list call) (r : option error) :
  ok_names names ->
  invoke (copyTree_fn s) (walk_path (Source s) names) n None x = (x', r) ->
  is_failure r = false ->
  disk (fst x') = disk (fst x) ++ visit_events s names n /\
  r = if node_IsDir n && reserved (st_name (node_stat n))
      then Some SkipDir else None.
Proof.
  intros Hok Hi Hf. unfold invoke in Hi.
  pose proof (copyTree_fn_events names n (fst x) Hok) as H.
  destruct (copyTree_fn s _ n None (fst x)) as [st r0].
  injection Hi as <- <-. exact (H Hf).
Qed.

Lemma invoke_error_fails (path : string) (n : node) (op : string)
    (errno : Errno) (x x' : copy_state * list call) (r : option error) :
  invoke (copyTree_fn s) path n (Some (PathError op path errno)) x = (x', r) ->
  is_failure r = true.
Proof. intros H. now rewrite (invoke_failure s _ _ _ _ _ _ H). Qed.

(** A walk that does not fail leaves [copied] on the disk. *)
Lemma walk_copied :
  (forall n names x x' r,
     wf_node n = true -> ok_names names ->
     walk (copyTree_fn s) (walk_path (Source s) names) n x = (x', r) ->
     is_failure r = false ->
     disk (fst x') = disk (fst x) ++ copied s names n /\
     (node_IsDir n = false -> r = None)) /\
  (forall ns names x x' r,
     wf_nodes ns = true -> ok_names names ->
     walk_names (copyTree_fn s) (walk_path (Source s) names) ns x = (x', r) ->
     is_failure r = false ->
     disk (fst x') = disk (fst x) ++ copied_names s names ns).
Proof.
  apply node_nodes_ind.
  - intros st io names x x' r _ Hok H Hf.
    destruct (invoke_events names (File st io) x x' r Hok H Hf) as [Hd Hr].
    split; [exact Hd | intros _; exact Hr].
  - intros st rd es IH names x x' r Hwf Hok H Hf.
    split; [|discriminate].
    rewrite walk_Dir in H. cbv zeta in H.
    destruct rd as [errno|]; cbn [path_error] in H.
    + destruct (invoke (copyTree_fn s) _ _ _ x) as [x1 err1] eqn:Ei.
      injection H as <- <-.
      rewrite (invoke_error_fails _ _ _ _ _ _ _ Ei) in Hf. discriminate.
    + destruct (invoke (copyTree_fn s) _ _ None x) as [x1 err1] eqn:Ei.
      destruct err1 as [e1|].
      * injection H as <- <-.
        destruct (invoke_events names _ x x1 _ Hok Ei Hf) as [Hd Hr].
        cbn [node_IsDir node_stat andb] in Hr. cbn [visit_events] in Hd.
        cbn [copied].
        destruct (reserved (st_name st)); [exact Hd | discriminate].
      * destruct (invoke_events names _ x x1 _ Hok Ei eq_refl) as [Hd Hr].
        cbn [node_IsDir node_stat andb] in Hr. cbn [visit_events] in Hd.
        cbn [copied].
        destruct (reserved (st_name st)); [discriminate|].
        rewrite (IH names x1 x' r Hwf Hok H Hf), Hd.
        now rewrite <- app_assoc.
  - intros names x x' r _ _ [= <- <-] _. cbn [copied_names].
    now rewrite app_nil_r.
  - intros e IHe rest IHrest names x x' r Hwf Hok H Hf.
    cbn [wf_nodes] in Hwf. apply andb_true_iff in Hwf as [Hwf Hwr].
    apply andb_true_iff in Hwf as [Hn Hwe].
    rewrite walk_names_more in H. cbv zeta in H.
    rewrite (walk_path_snoc _ _ _ Hok Hn) in H.
    set (names' := names ++ [st_name (node_stat e)]) in *.
    assert (Hok' : ok_names names')
      by (apply Forall_app; split; [exact Hok | repeat constructor; exact Hn]).
    cbn [copied_names]. fold names'.
    destruct (st_lstat (node_stat e)) as [errno|]; cbn [path_error] in H.
    + destruct (invoke (copyTree_fn s) _ e _ x) as [x1 r1] eqn:Ei.
      pose proof (invoke_failure s _ _ _ _ _ _ Ei) as ->.
      cbv beta iota in H.
      destruct (decide (PathError "lstat" (walk_path (Source s) names') errno
                        = SkipDir)); [discriminate|].
      assert (r = Some (PathError "lstat" (walk_path (Source s) names') errno))
        as -> by congruence.
      discriminate.
    + destruct (walk (copyTree_fn s) (walk_path (Source s) names') e x)
        as [x1 r1] eqn:Ew.
      destruct r1 as [e1|]; cbv beta iota in H.
      * destruct (negb (node_IsDir e) || negb (bool_decide (e1 = SkipDir)))
          eqn:Eb.
        -- assert (x1 = x' /\ Some e1 = r) as [<- <-] by (split; congruence).
           destruct (IHe names' x x1 (Some e1) Hwe Hok' Ew Hf) as [_ Hfile].
           apply orb_true_iff in Eb as [Eb|Eb].
           ++ apply negb_true_iff in Eb. discriminate (Hfile Eb).
           ++ apply negb_true_iff, bool_decide_eq_false in Eb.
              destruct e1; try discriminate. congruence.
        -- apply orb_false_iff in Eb as [_ Eb].
           apply negb_false_iff, bool_decide_eq_true in Eb. subst e1.
           destruct (IHe names' x x1 (Some SkipDir) Hwe Hok' Ew eq_refl)
             as [Hd _].
           rewrite (IHrest names x1 x' r Hwr Hok H Hf), Hd.
           now rewrite <- app_assoc.
      * destruct (IHe names' x x1 None Hwe Hok' Ew eq_refl) as [Hd _].
        rewrite (IHrest names x1 x' r Hwr Hok H Hf), Hd.
        now rewrite <- app_assoc.
Qed.

End CopiedWalk.

(** When [copyTree] returns nil, the disk gained [copied]. *)
Lemma copyTree_nil_disk (s : Site) (t : node) (disk0 disk1 : list fs_event)
    (trace : list call) :
  wf_node t = true ->
  copyTree s t disk0 = (None, disk1, trace) ->
  disk1 = disk0 ++ copied s [] t.
Proof.
  intros Hwf. unfold copyTree, filepath_Walk.
  change (Source s) with (walk_path (Source s) []).
  set (st0 := {| ok := true; disk := disk0 |}).
  destruct (st_lstat (node_stat t)) as [errno|]; cbn [path_error].
  - destruct (invoke (copyTree_fn s) _ t _ (st0, [])) as [[st tr] r] eqn:Ei.
    assert (Hne : Some (PathError "lstat" (walk_path (Source s) []) errno)
                  <> Some SkipDir) by discriminate.
    pose proof (invoke_steps s _ _ _ _ _ _ Hne Ei) as (calls & _ & _ & Hs).
    rewrite (invoke_error_fails s _ _ _ _ _ _ _ Ei) in Hs.
    destruct Hs as [Hok _]. cbn [fst] in Hok.
    pose proof (invoke_failure s _ _ _ _ _ _ Ei) as ->.
    cbv beta iota. destruct (decide (_ = SkipDir)); [discriminate|].
    rewrite Hok. discriminate.
  - destruct (walk (copyTree_fn s) _ t (st0, [])) as [[st tr] r] eqn:Ew.
    pose proof (proj1 (walk_steps s) _ _ _ _ _ Ew) as (calls & _ & _ & Hs).
    destruct (is_failure r) eqn:Ef.
    + destruct Hs as [Hok _]. cbn [fst] in Hok.
      destruct r as [e|]; [|discriminate Ef].
      destruct (decide (e = SkipDir)) as [->|]; [discriminate Ef|].
      rewrite Hok. discriminate.
    + destruct (proj1 (walk_copied s) t [] _ _ _ Hwf ltac:(constructor) Ew Ef)
        as [Hd _].
      cbn [fst] in Hd.
      assert (Hdisk : disk st = disk0 ++ copied s [] t) by exact Hd.
      destruct r as [e|]; [destruct (decide (e = SkipDir))|];
        destruct (negb (ok st)); intros [= <- <-]; exact Hdisk.
Qed.

(** X12: [copyFile] returns nil exactly when its four steps succeed, and
    has then created the destination, given it the mode and written the
    bytes, whose number it returns. The disk is untouched exactly when the
    source or the destination cannot be opened: when [Stat] or the copy
    fails afterwards, the destination file that was created stays. *)
Theorem copyFile_outcome (io : copy_io) (mode : Z) (src dst : string)
    (disk : list fs_event) :
  let r := copyFile io mode src dst disk in
  (snd (fst r) = None <->
   io_open io = None /\ io_create io = None /\ io_stat io = None /\
   snd (io_copy io) = None) /\
  (snd (fst r) = None ->
   snd r = disk ++ [EvCreate dst; EvChmod dst mode;
                    EvWrite dst (fst (io_copy io))] /\
   fst (fst r) = Z.of_nat (length (fst (io_copy io)))) /\
  (io_open io = None -> io_create io = None ->
   exists evs, snd r = disk ++ EvCreate dst :: evs) /\
  (io_open io <> None \/ io_create io <> None -> snd r = disk).
Proof.
  cbv zeta. unfold copyFile.
  destruct (io_open io) as [e1|], (io_create io) as [e2|],
    (io_stat io) as [e3|], (io_copy io) as [data [e4|]];
    cbn [path_error fst snd];
    (split; [split|split; [|split]]).
  all: try (intros H; discriminate H).
  all: try (intros (H1 & H2 & H3 & H4); first [reflexivity | congruence]).
  all: try (intros [H|H]; first [reflexivity | congruence]).
  all: try (intros H1 H2; first [discriminate H1 | discriminate H2]).
  all: try (intros H1 H2; eexists; rewrite <- ?app_assoc; reflexivity).
  - intros _. repeat split; reflexivity.
  - intros _. split; [now rewrite <- !app_assoc | reflexivity].
Qed.

(** X13: when [copyTree] returns nil on a source tree (its entries named as
    a directory listing names them), the disk has gained exactly [copied]:
    in the order of the walk, every directory made with the mode of its
    source and every file created, given the mode of its source and written
    with its bytes, for the entries that have no hidden name on their way
    and no directory with a reserved name; nothing for the root itself. *)
Theorem copyTree_success (s : Site) (t : node) (disk0 : list fs_event) :
  wf_node t = true ->
  copy_error (copyTree s t disk0) = None ->
  copy_disk (copyTree s t disk0) = disk0 ++ copied s [] t.
Proof.
  intros Hwf He.
  destruct (copyTree s t disk0) as [[err disk1] trace] eqn:E.
  cbn [copy_error copy_disk fst snd] in *. subst err.
  exact (copyTree_nil_disk s t disk0 disk1 trace Hwf E).
Qed.

(** The tree of the end-to-end scenario: the directory and the logo. *)
Lemma copyTree_success_witness :
  copy_disk (copyTree src_out hello_tree []) =
    [EvMkdir "out/images" 493;
     EvCreate "out/images/logo.png"; EvChmod "out/images/logo.png" 420;
     EvWrite "out/images/logo.png" (list_byte_of_string "data")].
Proof.
  rewrite (copyTree_success src_out hello_tree [] eq_refl eq_refl).
  reflexivity.
Defined.

(** X14: a source root that is a directory named [posts] or [templates] is
    skipped as a whole: the walk makes one call, which answers [SkipDir],
    nothing is copied whatever the directory holds, and [copyTree] returns
    nil. *)
Theorem reserved_root_copies_nothing (s : Site) (st : lstat_info)
    (es : nodes) (disk0 : list fs_event) :
  st_lstat st = None ->
  reserved (st_name st) = true ->
  copyTree s (Dir st None es) disk0 =
    (None, disk0,
     [{| call_path := Source s; call_err := None;
         call_ret := Some SkipDir |}]).
Proof.
  intros Hl Hr. unfold copyTree, filepath_Walk. cbn [node_stat].
  rewrite Hl. cbn [path_error]. rewrite walk_Dir. cbn [path_error].
  unfold invoke, copyTree_fn.
  cbn [node_info IsDir Name node_IsDir node_stat andb fst snd].
  fold (reserved (st_name st)). rewrite Hr. reflexivity.
Qed.

Lemma reserved_root_copies_nothing_witness :
  copyTree site_in_posts root_named_posts [] =
    (None, [],
     [{| call_path := "posts"; call_err := None;
         call_ret := Some SkipDir |}]).
Proof.
  exact (reserved_root_copies_nothing site_in_posts
           (entry_named "posts" 493)
           (nodes_of_list [plain_file "index.html"; directory "css" []])
           [] eq_refl eq_refl).
Defined.

(** X15: when the tree copy fails, [Site.Generate] returns the aggregate
    error at once: the post pass does not run, whatever the posts, the
    template and the rest of the world are, and the disk holds what the
    copy wrote before it stopped. *)
Theorem copy_failure_ends_Generate (md : list Byte.byte -> list Byte.byte)
    (w : World) (t : node) (s : Site) :
  copy_error (copyTree s t []) <> None ->
  Site_Generate md w t s =
    (Return (Some copy_errors), copy_disk (copyTree s t [])).
Proof.
  intros H. unfold Site_Generate.
  destruct (copyTree_error_cases s t []) as [E|E]; [congruence|].
  destruct (copyTree s t []) as [[err disk] tr].
  cbn [copy_error copy_disk fst snd] in *. now subst err.
Qed.

Lemma copy_failure_ends_Generate_witness :
  Site_Generate (fun x => x)
    (posts_world ["hello.md"%string] (inl body_template))
    a_fails_b_fine src_out =
  (Return (Some copy_errors), []).
Proof.
  apply (copy_failure_ends_Generate (fun x => x)
           (posts_world ["hello.md"%string] (inl body_template))
           a_fails_b_fine src_out).
  discriminate.
Defined.

(** X16: when [Site.Generate] returns nil, the template was parsed, the
    posts directory listed, every listed entry that is not hidden was
    discovered as a post, and the disk holds exactly what the tree copy
    leaves, followed by the directory, the file and the rendering of each
    post in the order of the listing. *)
Theorem Site_Generate_success (md : list Byte.byte -> list Byte.byte)
    (w : World) (t : node) (s : Site) (disk : list fs_event) :
  wf_node t = true ->
  Dest s <> EmptyString ->
  Site_Generate md w t s = (Return None, disk) ->
  let postsDir := filepath_Join [Source s; "posts"%string] in
  let tmplDir := filepath_Join [Source s; "templates"%string] in
  exists tmpl entries posts,
    ParseFiles w (filepath_Join [tmplDir; "default.html"%string]) = inl tmpl /\
    ReadDir w postsDir = inl entries /\
    Forall2 (rendered w s postsDir) (shown entries) posts /\
    disk = copied s [] t ++ concat (map (post_events md s tmpl) posts).
Proof.
  intros Hwf Hd H. cbv zeta. unfold Site_Generate in H.
  destruct (copyTree s t []) as [[err disk1] tr] eqn:Ec.
  destruct err as [e|]; [discriminate|].
  pose proof (copyTree_nil_disk s t [] disk1 tr Hwf Ec) as ->.
  cbn [app] in H. unfold generatePosts in H.
  destruct (negb (exists_ w _) || negb (exists_ w _)); [discriminate|].
  destruct (ParseFiles w _) as [tmpl|e] eqn:Ep; cbn [template_Must] in H;
    [|discriminate].
  unfold ioutil_ReadDir in H.
  destruct (ReadDir w _) as [entries|errno] eqn:Er; [|discriminate].
  destruct (generatePosts_loop_nil md w s _ tmpl entries Hd _ _ H)
    as (posts & HF & ->).
  exists tmpl, entries, posts. repeat split; assumption || reflexivity.
Qed.

(** The end-to-end scenario: the logo, then the post [hello.md]. *)
Lemma Site_Generate_success_witness :
  exists tmpl entries posts,
    ParseFiles (posts_world ["hello.md"%string] (inl body_template))
      "src/templates/default.html" = inl tmpl /\
    ReadDir (posts_world ["hello.md"%string] (inl body_template))
      "src/posts" = inl entries /\
    Forall2 (rendered (posts_world ["hello.md"%string] (inl body_template))
               src_out "src/posts") (shown entries) posts /\
    [EvMkdir "out/images" 493;
     EvCreate "out/images/logo.png"; EvChmod "out/images/logo.png" 420;
     EvWrite "out/images/logo.png" (list_byte_of_string "data");
     EvMkdirAll "out/2023/07" 493; EvCreate "out/2023/07/hello.html";
     EvWrite "out/2023/07/hello.html"
       (list_byte_of_string "<body># Hi</body>")] =
    copied src_out [] hello_tree ++
    concat (map (post_events (fun x => x) src_out tmpl) posts).
Proof.
  exact (Site_Generate_success (fun x => x)
           (posts_world ["hello.md"%string] (inl body_template))
           hello_tree src_out _ eq_refl ltac:(discriminate) eq_refl).
Defined.

(** ** The tree copy: what the walk never visits *)

Lemma invoke_outside_reserved (s : Site) (names : list string) (n : node)
    (err : option error) (x x' : copy_state * list call) (r : option error) :
  ok_names names ->
  free (removelast names) ->
  (names <> [] -> List.last names EmptyString = st_name (node_stat n)) ->
  invoke (copyTree_fn s) (walk_path (Source s) names) n err x = (x', r) ->
  Forall (outside_reserved s) (snd x) ->
  Forall (outside_reserved s) (snd x').
Proof.
  intros Hok Hres _ Hi Hd. unfold invoke in Hi.
  destruct (copyTree_fn s _ n err (fst x)) as [st r0].
  injection Hi as <- <-. cbn [snd].
  apply Forall_app. split; [exact Hd|].
  constructor; [|constructor]. exists names. cbn [call_path].
  repeat split; assumption.
Qed.

Section VisitedWalk.

Variable s : Site.

(** The walk calls the walk function only outside reserved directories. *)
Lemma walk_outside_reserved :
  (forall n names x x' r,
     wf_node n = true ->
     ok_names names -> free (removelast names) ->
     (names <> [] -> List.last names EmptyString = st_name (node_stat n)) ->
     walk (copyTree_fn s) (walk_path (Source s) names) n x = (x', r) ->
     Forall (outside_reserved s) (snd x) ->
     Forall (outside_reserved s) (snd x')) /\
  (forall ns names x x' r,
     wf_nodes ns = true ->
     ok_names names -> free names ->
     walk_names (copyTree_fn s) (walk_path (Source s) names) ns x = (x', r) ->
     Forall (outside_reserved s) (snd x) ->
     Forall (outside_reserved s) (snd x')).
Proof.
  apply node_nodes_ind.
  - intros st io names x x' r _ Hok Hres Hlast H Hd.
    exact (invoke_outside_reserved s names _ None x x' r Hok Hres Hlast H Hd).
  - intros st rd es IH names x x' r Hwf Hok Hres Hlast H Hd.
    rewrite walk_Dir in H. cbv zeta in H.
    destruct (invoke (copyTree_fn s) (walk_path (Source s) names)
                (Dir st rd es)
                (path_error "open" (walk_path (Source s) names) rd) x)
      as [x1 err1] eqn:Ei.
    pose proof (invoke_outside_reserved s names _ _ x x1 err1 Hok Hres Hlast Ei Hd) as H1.
    destruct (path_error "open" (walk_path (Source s) names) rd) as [e|].
    + injection H as <- <-. exact H1.
    + destruct err1 as [e1|].
      * injection H as <- <-. exact H1.
      * apply (IH names x1 x' r Hwf Hok); [|exact H|exact H1].
        apply (Forall_removelast_last _ _ EmptyString Hres).
        intros Hne. rewrite (Hlast Hne).
        exact (invoke_enters s _ _ _ _ _ _ Ei).
  - intros names x x' r _ _ _ [= <- <-] Hd. exact Hd.
  - intros e IHe rest IHrest names x x' r Hwf Hok Hfree H Hd.
    cbn [wf_nodes] in Hwf. apply andb_true_iff in Hwf as [Hwf Hwr].
    apply andb_true_iff in Hwf as [Hn Hwe].
    rewrite walk_names_more in H. cbv zeta in H.
    rewrite (walk_path_snoc _ _ _ Hok Hn) in H.
    set (names' := names ++ [st_name (node_stat e)]) in *.
    assert (Hok' : ok_names names')
      by (apply Forall_app; split; [exact Hok | repeat constructor; exact Hn]).
    assert (Hres' : free (removelast names'))
      by (unfold names'; rewrite removelast_last; exact Hfree).
    assert (Hlast' : names' <> [] ->
                     List.last names' EmptyString = st_name (node_stat e))
      by (intros _; unfold names'; apply last_last).
    destruct (path_error "lstat" (walk_path (Source s) names')
                (st_lstat (node_stat e))) as [err|].
    + destruct (invoke (copyTree_fn s) (walk_path (Source s) names') e
                  (Some err) x) as [x1 r1] eqn:Ei.
      pose proof (invoke_outside_reserved s names' _ _ x x1 r1 Hok' Hres' Hlast' Ei Hd)
        as H1.
      destruct r1 as [e1|]; cbv beta iota in H.
      * destruct (decide (e1 = SkipDir)).
        -- exact (IHrest names x1 x' r Hwr Hok Hfree H H1).
        -- injection H as <- <-. exact H1.
      * exact (IHrest names x1 x' r Hwr Hok Hfree H H1).
    + destruct (walk (copyTree_fn s) (walk_path (Source s) names') e x)
        as [x1 r1] eqn:Ew.
      pose proof (IHe names' x x1 r1 Hwe Hok' Hres' Hlast' Ew Hd) as H1.
      destruct r1 as [e1|]; cbv beta iota in H.
      * destruct (negb (node_IsDir e) || negb (bool_decide (e1 = SkipDir))).
        -- injection H as <- <-. exact H1.
        -- exact (IHrest names x1 x' r Hwr Hok Hfree H H1).
      * exact (IHrest names x1 x' r Hwr Hok Hfree H H1).
Qed.

End VisitedWalk.

(** X17: the tree copy never calls its walk function below a directory
    named [posts] or [templates]: every call of the walk is for the root or
    for an entry whose ancestors below the root have no reserved name, so
    that nothing under a reserved directory is read, opened or able to make
    the copy fail. *)
Theorem copy_never_visits_reserved (s : Site) (t : node) (c : call) :
  wf_node t = true ->
  c ∈ copy_trace (copyTree s t []) ->
  outside_reserved s c.
Proof.
  intros Hwf Hin.
  assert (HF : Forall (outside_reserved s) (copy_trace (copyTree s t []))).
  { unfold copyTree, filepath_Walk.
    change (Source s) with (walk_path (Source s) []).
    set (st0 := {| ok := true; disk := [] |}).
    assert (Hd0 : Forall (outside_reserved s) (snd (st0, @nil call)))
      by constructor.
    destruct (path_error "lstat" (walk_path (Source s) [])
                (st_lstat (node_stat t))) as [e|].
    - destruct (invoke (copyTree_fn s) (walk_path (Source s) []) t (Some e)
                  (st0, [])) as [[st tr] r] eqn:Ei.
      pose proof (invoke_outside_reserved s [] t _ _ _ _ ltac:(constructor)
                    ltac:(constructor) ltac:(congruence) Ei Hd0) as H.
      cbn [snd] in H.
      destruct r as [e1|]; [destruct (decide (e1 = SkipDir))|];
        destruct (negb (ok st)); exact H.
    - destruct (walk (copyTree_fn s) (walk_path (Source s) []) t (st0, []))
        as [[st tr] r] eqn:Ew.
      pose proof (proj1 (walk_outside_reserved s) t [] _ _ _ Hwf
                    ltac:(constructor) ltac:(constructor) ltac:(congruence)
                    Ew Hd0) as H.
      cbn [snd] in H.
      destruct r as [e1|]; [destruct (decide (e1 = SkipDir))|];
        destruct (negb (ok st)); exact H. }
  rewrite Forall_forall in HF. exact (HF c Hin).
Qed.

(** In the mixed tree the walk reaches [images/posts] and stops there. *)
Lemma copy_never_visits_reserved_witness :
  outside_reserved src_out
    {| call_path := "src/images/posts"; call_err := None;
       call_ret := Some SkipDir |}.
Proof.
  apply (copy_never_visits_reserved src_out mixed_tree).
  - reflexivity.
  - vm_compute. apply list_elem_of_In. simpl. tauto.
Defined.
